(** * V2X scenario script (src/V2X-Main.cc): a shallow embedding

    The script configures an ns-3 simulation: it pre-populates ARP caches,
    installs queue discs, opens UDP sockets, schedules the vehicles' sends
    and serialises flow statistics.  Every ns-3 object the script touches is
    a field of [World]; a smart pointer [Ptr<T>] is an index into the store
    of [T] objects, nullable pointers are [option]s.  A statement of the
    script that dereferences a null pointer or indexes a container out of
    range has no defined result: the embedding returns [None] there. *)

From Stdlib Require Import ZArith QArith Lia String.
From stdpp Require Import base option list list_numbers gmap sorting.
From Equations Require Import Equations.

Close Scope Q_scope.
Local Open Scope Z_scope.

(** ** Scalars *)

(** [uint32_t] and [uint16_t] values are integers with the wrap-around of
    the unsigned types written out. *)
Definition wrap32 (z : Z) : Z := z mod 2 ^ 32.
Definition wrap16 (z : Z) : Z := z mod 2 ^ 16.

Definition Ipv4Address := Z.
Definition Mac48Address := Z.

(** [ns3::Time] at the resolution the script selects ([Time::NS]): a count
    of nanoseconds. *)
Definition Time := Z.

(** [Seconds(d)] for a [double] that holds an integer.  The script only ever
    passes [sendStart + double(i)] and that plus [1.0] with [i] a
    [uint32_t]; these sums are integers below 2^53, so the [double]
    arithmetic is exact and is carried out in [Z]. *)
Definition Seconds (s : Z) : Time := s * 1000000000.

(** Pointers into the object stores. *)
Abbreviation NodePtr := nat (only parsing).
Abbreviation DevPtr := nat (only parsing).
Abbreviation SocketPtr := nat (only parsing).
Abbreviation ArpCachePtr := nat (only parsing).

(** ** Command line *)

Record Config := {
  enableFlowMonitor : bool;
  enablePcap : bool;
  enableNetAnim : bool;
  enableQueueTraces : bool;
  netAnimFile : string;
  nVehicles : Z;          (* uint32_t *)
  simTime : Q             (* double *)
}.

Definition defaults : Config := {|
  enableFlowMonitor := true;
  enablePcap := true;
  enableNetAnim := false;
  enableQueueTraces := true;
  netAnimFile := "v2x-sim-netanim.xml";
  nVehicles := 2;
  simTime := 12 # 1
|}.

(** ** Packets, addresses, sockets *)

Record Packet := { GetSize : Z }.

(** [Create<Packet>(n)]: a packet with an [n]-byte payload. *)
Definition Create_Packet (n : Z) : Packet := {| GetSize := n |}.

Record InetSocketAddress := { GetIpv4 : Ipv4Address; GetPort : Z }.

(** [Ipv4Address::GetAny()] is 0.0.0.0. *)
Definition Ipv4Address_GetAny : Ipv4Address := 0.

Inductive RecvCallback := CbReceivePacket.

(** The socket factories of the library, named by their [TypeId]. *)
Inductive SocketFactory := UdpSocketFactory | TcpSocketFactory.

(** A socket: the node it was created on, the factory that made it, the
    local endpoint it is bound to, its receive callback, and the datagrams
    that have arrived and have not been read yet, each with its sender's
    address. *)
Record Socket := {
  sk_node : NodePtr;
  sk_tid : SocketFactory;
  sk_bound : option InetSocketAddress;
  sk_recvCallback : option RecvCallback;
  sk_deliveryQueue : list (Packet * InetSocketAddress)
}.

(** ** Standard output *)

Inductive OutLine :=
| OutBanner (n : Z) (t : Q)
| OutArp (i : Z) (rsuIp : Ipv4Address) (rsuMac : Mac48Address)
| OutSkipQueueDisc (i : Z)
| OutInstalledQueueDiscs (n : Z)
| OutNoQueueDiscInstall
| OutSent (now : Time) (vehId : Z) (dst : Ipv4Address) (port : Z)
| OutReceived (now : Time) (bytes : Z) (from : Ipv4Address).

(** ** Lambdas *)

(** The automatic variables of [main] that are alive in the body of the
    scheduling loop. *)
Record Frame := {
  v_i : Z;
  v_rsuAddr : Ipv4Address;
  v_vehId : Z;
  v_tsend : Z;
  v_port : Z;
  v_vehicleSockets : list (option SocketPtr)
}.

(** A member of a closure object.  C++ offers two kinds of capture: by copy
    ([x] or [x = e]), which stores the value the expression has when the
    lambda expression is evaluated, and by reference ([&x]), which stores
    the location and reads it when the body runs. *)
Inductive Capture (A : Type) :=
| ByCopy (v : A)
| ByRef (rd : Frame → A).
Arguments ByCopy {A} v.
Arguments ByRef {A} rd.

Definition is_copy {A} (c : Capture A) : bool :=
  match c with ByCopy _ => true | ByRef _ => false end.

(** The value a member yields when the body runs and [main]'s variables
    hold [fr]. *)
Definition read {A} (fr : Frame) (c : Capture A) : A :=
  match c with ByCopy v => v | ByRef rd => rd fr end.

(** The closure type of the two lambdas of the scheduling loop: both have
    the members [sock], [rsuAddr], [port] and [vehId]. *)
Record Lambda := {
  c_sock : Capture (option SocketPtr);
  c_rsuAddr : Capture Ipv4Address;
  c_port : Capture Z;
  c_vehId : Capture Z
}.

Definition captures_by_copy (f : Lambda) : bool :=
  is_copy (c_sock f) && is_copy (c_rsuAddr f) && is_copy (c_port f)
  && is_copy (c_vehId f).

(** ** What a callback does *)

Inductive Action :=
| ActSendTo (sock : SocketPtr) (p : Packet) (flags : Z) (to : InetSocketAddress)
| ActCout (l : OutLine).

(** [SendPacket]: one packet with a 100-byte payload, one [SendTo], one line
    of output.  [socket->SendTo] on a null [Ptr] is undefined. *)
Definition SendPacket (now : Time) (socket : option SocketPtr)
    (dst : Ipv4Address) (port : Z) (vehId : Z) : option (list Action) :=
  sock ← socket;
  let packet := Create_Packet 100 in
  Some [ActSendTo sock packet 0 {| GetIpv4 := dst; GetPort := port |};
        ActCout (OutSent now vehId dst port)].

(** Running the body of a scheduled lambda at time [now] while [main]'s
    variables hold [fr]. *)
Definition invoke (f : Lambda) (now : Time) (fr : Frame) : option (list Action) :=
  SendPacket now (read fr (c_sock f)) (read fr (c_rsuAddr f))
    (read fr (c_port f)) (read fr (c_vehId f)).

(** An event of the simulator's queue. *)
Record Event := { ev_time : Time; ev_action : Lambda }.

(** ** The simulated world *)

Inductive ArpState := ALIVE | WAIT_REPLY | DEAD | PERMANENT | STATIC_AUTOGENERATED.

Record ArpEntry := { m_state : ArpState; m_macAddress : option Mac48Address }.

Record ArpCache := {
  m_aliveTimeout : Time;
  m_arpCache : gmap Ipv4Address ArpEntry
}.

Record Ipv4Interface := {
  if_addresses : list Ipv4Address;
  m_cache : option ArpCachePtr
}.

Inductive QueueDisc := PfifoFastQueueDisc | OtherQueueDisc (typeId : string).

Record NetDevice := { GetNode : NodePtr; GetAddress : Mac48Address }.

(** Calls into the library whose effect lies outside the objects below. *)
Inductive ApiCall :=
| CallEnablePcapAll (prefix : string) (promiscuous : bool)
| CallCreateFileStream (name : string)
| CallEnableAsciiAll
| CallFlowMonitorInstallAll
| CallSimulatorStop (seconds : Q)
| CallSimulatorRun
| CallCheckForLostPackets
| CallSerializeToXmlFile (name : string) (enableHistograms enableProbes : bool)
| CallSimulatorDestroy.

(** [w_ipv4] and [w_tc] hold the [Ipv4L3Protocol] (its interface list) and
    the [TrafficControlLayer] (the root queue disc of each of its devices)
    aggregated to a node; a node without the object has no entry, which is
    when [GetObject] returns null. *)
Record World := {
  w_ipv4 : gmap NodePtr (list Ipv4Interface);
  w_tc : gmap NodePtr (gmap DevPtr QueueDisc);
  w_devices : list NetDevice;
  w_arp : list ArpCache;
  w_sockets : list Socket;
  w_events : list Event;
  w_cout : list OutLine;
  w_calls : list ApiCall
}.

Definition set_ipv4 (x : gmap NodePtr (list Ipv4Interface)) (w : World) : World :=
  {| w_ipv4 := x; w_tc := w_tc w; w_devices := w_devices w; w_arp := w_arp w;
     w_sockets := w_sockets w; w_events := w_events w; w_cout := w_cout w;
     w_calls := w_calls w |}.
Definition set_tc (x : gmap NodePtr (gmap DevPtr QueueDisc)) (w : World) : World :=
  {| w_ipv4 := w_ipv4 w; w_tc := x; w_devices := w_devices w; w_arp := w_arp w;
     w_sockets := w_sockets w; w_events := w_events w; w_cout := w_cout w;
     w_calls := w_calls w |}.
Definition set_arp (x : list ArpCache) (w : World) : World :=
  {| w_ipv4 := w_ipv4 w; w_tc := w_tc w; w_devices := w_devices w; w_arp := x;
     w_sockets := w_sockets w; w_events := w_events w; w_cout := w_cout w;
     w_calls := w_calls w |}.
Definition set_sockets (x : list Socket) (w : World) : World :=
  {| w_ipv4 := w_ipv4 w; w_tc := w_tc w; w_devices := w_devices w; w_arp := w_arp w;
     w_sockets := x; w_events := w_events w; w_cout := w_cout w;
     w_calls := w_calls w |}.
Definition set_events (x : list Event) (w : World) : World :=
  {| w_ipv4 := w_ipv4 w; w_tc := w_tc w; w_devices := w_devices w; w_arp := w_arp w;
     w_sockets := w_sockets w; w_events := x; w_cout := w_cout w;
     w_calls := w_calls w |}.
Definition set_cout (x : list OutLine) (w : World) : World :=
  {| w_ipv4 := w_ipv4 w; w_tc := w_tc w; w_devices := w_devices w; w_arp := w_arp w;
     w_sockets := w_sockets w; w_events := w_events w; w_cout := x;
     w_calls := w_calls w |}.
Definition set_calls (x : list ApiCall) (w : World) : World :=
  {| w_ipv4 := w_ipv4 w; w_tc := w_tc w; w_devices := w_devices w; w_arp := w_arp w;
     w_sockets := w_sockets w; w_events := w_events w; w_cout := w_cout w;
     w_calls := x |}.

(** [std::cout << ...] and a library call append to their logs. *)
Definition cout (l : OutLine) (w : World) : World := set_cout (w_cout w ++ [l]) w.
Definition call (c : ApiCall) (w : World) : World := set_calls (w_calls w ++ [c]) w.

(** The containers the helpers of lines 101-142 hand to the rest of [main]:
    [vehicles], [rsu], [devices] (one device per node of [allNodes], in
    order) and [interfaces] (read only through [GetAddress]). *)
Record Containers := {
  vehicles : list NodePtr;
  rsu : list NodePtr;
  devices : list DevPtr;
  interfaces : list Ipv4Address
}.

(** ** Loops *)

(** [for (uint32_t i = 0; i < n; ++i) body]. *)
Definition for_uint32 {S : Type} (n : Z) (body : Z → S → option S) (s : S) : option S :=
  foldl (λ acc i, acc ≫= body i) (Some s) (seqZ 0 n).

(** [GetN()] and [GetNInterfaces()] return the size of a container as a
    [uint32_t]. *)
Definition GetN {A : Type} (l : list A) : Z := wrap32 (Z.of_nat (length l)).

(** ** Lines 144-166: the ARP caches *)

(** A fresh [ArpCache] has the attribute defaults of the library (an alive
    timeout of 120 s) and no entry. *)
Definition CreateObject_ArpCache : ArpCache :=
  {| m_aliveTimeout := Seconds 120; m_arpCache := ∅ |}.

Definition SetAliveTimeout (t : Time) (c : ArpCache) : ArpCache :=
  {| m_aliveTimeout := t; m_arpCache := m_arpCache c |}.

(** [ArpCache::Add(to)] creates the entry of [to], alive and without a MAC
    address, and returns a pointer to it. *)
Definition ArpCache_Add (to : Ipv4Address) (c : ArpCache) : ArpCache :=
  {| m_aliveTimeout := m_aliveTimeout c;
     m_arpCache := <[to := {| m_state := ALIVE; m_macAddress := None |}]> (m_arpCache c) |}.

Definition SetMacAddress (mac : Mac48Address) (e : ArpEntry) : ArpEntry :=
  {| m_state := m_state e; m_macAddress := Some mac |}.

Definition MarkPermanent (e : ArpEntry) : ArpEntry :=
  {| m_state := PERMANENT; m_macAddress := m_macAddress e |}.

(** [entry->f()] where [entry] points at the entry of [to] inside [c]. *)
Definition through_entry (to : Ipv4Address) (f : ArpEntry → ArpEntry) (c : ArpCache) : ArpCache :=
  {| m_aliveTimeout := m_aliveTimeout c; m_arpCache := alter f to (m_arpCache c) |}.

Definition SetArpCache (arp : ArpCachePtr) (iface : Ipv4Interface) : Ipv4Interface :=
  {| if_addresses := if_addresses iface; m_cache := Some arp |}.

(** The inner loop over the interfaces of one [Ipv4L3Protocol]. *)
Definition set_caches (arp : ArpCachePtr) (ipv4proto : list Ipv4Interface) : option (list Ipv4Interface) :=
  for_uint32 (GetN ipv4proto)
    (λ j ifs, Some (alter (SetArpCache arp) (Z.to_nat j) ifs)) ipv4proto.

(** The body of the loop over the vehicles. *)
Definition arp_body (cs : Containers) (rsuIp : Ipv4Address) (rsuMac : Mac48Address)
    (i : Z) (w : World) : option World :=
  vehNode ← vehicles cs !! Z.to_nat i;
  ipv4proto ← w_ipv4 w !! vehNode;
  let arp := length (w_arp w) in
  let c := CreateObject_ArpCache in
  let c := SetAliveTimeout (Seconds 3600) c in
  let c := ArpCache_Add rsuIp c in
  let c := through_entry rsuIp (SetMacAddress rsuMac) c in
  let c := through_entry rsuIp MarkPermanent c in
  let w := set_arp (w_arp w ++ [c]) w in
  ifs ← set_caches arp ipv4proto;
  let w := set_ipv4 (<[vehNode := ifs]> (w_ipv4 w)) w in
  Some (cout (OutArp i rsuIp rsuMac) w).

Definition prepopulate_arp (cfg : Config) (cs : Containers)
    (rsuIp : Ipv4Address) (rsuMac : Mac48Address) (w : World) : option World :=
  for_uint32 (nVehicles cfg) (arp_body cs rsuIp rsuMac) w.

(** ** Lines 168-206: the queue discs *)

(** [TrafficControlLayer::GetRootQueueDiscOnDevice]: null when the layer
    knows no root queue disc for the device. *)
Definition GetRootQueueDiscOnDevice (tc : gmap DevPtr QueueDisc) (dev : DevPtr) : option QueueDisc :=
  tc !! dev.

(** The test the script makes for [devices.Get(i)]. *)
Definition alreadyHas (w : World) (dev : DevPtr) : option bool :=
  nd ← w_devices w !! dev;
  let node := GetNode nd in
  let tc := w_tc w !! node in
  Some match tc with
       | Some tc =>
           match GetRootQueueDiscOnDevice tc dev with
           | Some existing => true
           | None => false
           end
       | None => false
       end.

(** The body of the selection loop; its state is [devicesToInstall] and the
    world (for the output). *)
Definition select_body (cs : Containers) (i : Z) (st : list DevPtr * World) : option (list DevPtr * World) :=
  dev ← devices cs !! Z.to_nat i;
  has ← alreadyHas st.2 dev;
  if negb has
  then Some (st.1 ++ [dev], st.2)
  else Some (st.1, cout (OutSkipQueueDisc i) st.2).

Definition select_devices (cs : Containers) (w : World) : option (list DevPtr * World) :=
  for_uint32 (GetN (devices cs)) (select_body cs) ([], w).

(** [TrafficControlHelper::Install] on one device: the library asserts that
    the device's node has a [TrafficControlLayer] and stops the program when
    the device already has a root queue disc; otherwise the helper's root
    queue disc becomes the device's. *)
Definition tch_Install_device (root : QueueDisc) (w : World) (d : DevPtr) : option World :=
  nd ← w_devices w !! d;
  tc ← w_tc w !! GetNode nd;
  match GetRootQueueDiscOnDevice tc d with
  | Some _ => None
  | None => Some (set_tc (<[GetNode nd := <[d := root]> tc]> (w_tc w)) w)
  end.

(** [TrafficControlHelper::Install] on a container: device by device. *)
Definition tch_Install (root : QueueDisc) (c : list DevPtr) (w : World) : option World :=
  foldl (λ acc d, acc ≫= λ w, tch_Install_device root w d) (Some w) c.

Definition install_queue_discs (cs : Containers) (w : World) : option World :=
  let tch := PfifoFastQueueDisc in
  st ← select_devices cs w;
  let devicesToInstall := st.1 in
  let w := st.2 in
  if bool_decide (0 < GetN devicesToInstall)
  then
    w ← tch_Install tch devicesToInstall w;
    Some (cout (OutInstalledQueueDiscs (GetN devicesToInstall)) w)
  else Some (cout OutNoQueueDiscInstall w).

(** The root queue disc a device carries in a world. *)
Definition root_queue_disc (w : World) (d : DevPtr) : option QueueDisc :=
  nd ← w_devices w !! d;
  tc ← w_tc w !! GetNode nd;
  GetRootQueueDiscOnDevice tc d.

(** ** Lines 208-217: the sockets *)

Definition CreateSocket (node : NodePtr) (tid : SocketFactory) (w : World) : SocketPtr * World :=
  (length (w_sockets w),
   set_sockets (w_sockets w ++
     [{| sk_node := node; sk_tid := tid; sk_bound := None; sk_recvCallback := None;
         sk_deliveryQueue := [] |}]) w).

Definition Bind (a : InetSocketAddress) (s : Socket) : Socket :=
  {| sk_node := sk_node s; sk_tid := sk_tid s; sk_bound := Some a;
     sk_recvCallback := sk_recvCallback s; sk_deliveryQueue := sk_deliveryQueue s |}.

Definition SetRecvCallback (cb : RecvCallback) (s : Socket) : Socket :=
  {| sk_node := sk_node s; sk_tid := sk_tid s; sk_bound := sk_bound s;
     sk_recvCallback := Some cb; sk_deliveryQueue := sk_deliveryQueue s |}.

(** [p->f()] for a socket pointer [p]. *)
Definition through_socket (p : SocketPtr) (f : Socket → Socket) (w : World) : World :=
  set_sockets (alter f p (w_sockets w)) w.

Definition port : Z := 5000.

Definition open_rsu_socket (cs : Containers) (w : World) : option (SocketPtr * World) :=
  rsuNode ← rsu cs !! 0%nat;
  let '(rsuSocket, w) := CreateSocket rsuNode UdpSocketFactory w in
  let w := through_socket rsuSocket (Bind {| GetIpv4 := Ipv4Address_GetAny; GetPort := port |}) w in
  let w := through_socket rsuSocket (SetRecvCallback CbReceivePacket) w in
  Some (rsuSocket, w).

(** The loop that fills [vehicleSockets]; the vector is created with
    [nVehicles] null pointers. *)
Definition socket_body (cs : Containers) (i : Z) (st : list (option SocketPtr) * World)
    : option (list (option SocketPtr) * World) :=
  vehNode ← vehicles cs !! Z.to_nat i;
  _ ← st.1 !! Z.to_nat i;
  let '(p, w) := CreateSocket vehNode UdpSocketFactory st.2 in
  Some (<[Z.to_nat i := Some p]> st.1, w).

Definition open_vehicle_sockets (cfg : Config) (cs : Containers) (w : World)
    : option (list (option SocketPtr) * World) :=
  for_uint32 (nVehicles cfg) (socket_body cs)
    (replicate (Z.to_nat (nVehicles cfg)) None, w).

(** ** Lines 219-234: the sends *)

(** [Simulator::Schedule(delay, f)]: the event is due at [Now() + delay], and
    [Now()] is 0 until [Simulator::Run] starts.  Events are kept in the order
    of the calls. *)
Definition Schedule (delay : Time) (f : Lambda) (w : World) : World :=
  set_events (w_events w ++ [{| ev_time := 0 + delay; ev_action := f |}]) w.

Definition sendStart : Z := 1.

Definition schedule_body (rsuIp : Ipv4Address) (vehicleSockets : list (option SocketPtr))
    (i : Z) (w : World) : option World :=
  let rsuAddr := rsuIp in
  let vehId := wrap32 (i + 1) in
  let tsend := sendStart + i in
  sock1 ← vehicleSockets !! Z.to_nat i;
  let w := Schedule (Seconds tsend)
             {| c_sock := ByCopy sock1; c_rsuAddr := ByCopy rsuAddr;
                c_port := ByCopy port; c_vehId := ByCopy vehId |} w in
  sock2 ← vehicleSockets !! Z.to_nat i;
  let w := Schedule (Seconds (tsend + 1))
             {| c_sock := ByCopy sock2; c_rsuAddr := ByCopy rsuAddr;
                c_port := ByCopy port; c_vehId := ByCopy vehId |} w in
  Some w.

Definition schedule_sends (cfg : Config) (rsuIp : Ipv4Address)
    (vehicleSockets : list (option SocketPtr)) (w : World) : option World :=
  for_uint32 (nVehicles cfg) (schedule_body rsuIp vehicleSockets) w.

(** ** Lines 236-259: tracing, the flow monitor, the run *)

Abbreviation FlowMonitorPtr := nat (only parsing).

(** [FlowMonitorHelper::InstallAll] installs the helper's monitor on every
    node and returns a pointer to it, which is never null. *)
Definition FlowMonitorHelper_InstallAll (w : World) : option FlowMonitorPtr * World :=
  (Some 0%nat, call CallFlowMonitorInstallAll w).

Definition flowmon_file : string := "v2x-sim-final-flowmon.xml".

(** [main] up to and including [Simulator::Stop]: the result is the world
    [Simulator::Run] starts from, and [flowMonitor]. *)
Definition setup (cfg : Config) (cs : Containers) (w : World)
    : option (option FlowMonitorPtr * World) :=
  let w := cout (OutBanner (nVehicles cfg) (simTime cfg)) w in
  rsuDev ← devices cs !! Z.to_nat (nVehicles cfg);
  rsuNd ← w_devices w !! rsuDev;
  let rsuMac := GetAddress rsuNd in
  rsuIp ← interfaces cs !! Z.to_nat (nVehicles cfg);
  w ← prepopulate_arp cfg cs rsuIp rsuMac w;
  w ← install_queue_discs cs w;
  sw ← open_rsu_socket cs w;
  vw ← open_vehicle_sockets cfg cs sw.2;
  let vehicleSockets := vw.1 in
  w ← schedule_sends cfg rsuIp vehicleSockets vw.2;
  let w := if enablePcap cfg then call (CallEnablePcapAll "v2x-sim-final" true) w else w in
  let w := call (CallCreateFileStream "v2x-sim-final.tr") w in
  let w := call CallEnableAsciiAll w in
  let flowMonitor : option FlowMonitorPtr := None in
  let fw := if enableFlowMonitor cfg then FlowMonitorHelper_InstallAll w
            else (flowMonitor, w) in
  let w := call (CallSimulatorStop (simTime cfg)) fw.2 in
  Some (fw.1, w).

(** What [main] does once [Simulator::Run] has returned. *)
Definition finish (cfg : Config) (flowMonitor : option FlowMonitorPtr) (w : World) : World :=
  let w :=
    if enableFlowMonitor cfg && bool_decide (is_Some flowMonitor)
    then call (CallSerializeToXmlFile flowmon_file true true)
           (call CallCheckForLostPackets w)
    else w in
  call CallSimulatorDestroy w.

(** The whole of [main] from line 97 on.  The event loop itself belongs to
    the library: the call is recorded, the events are not run. *)
Definition main (cfg : Config) (cs : Containers) (w : World) : option World :=
  fw ← setup cfg cs w;
  let w := call CallSimulatorRun fw.2 in
  Some (finish cfg fw.1 w).

(** ** Lines 36-47: the receive callback *)

(** [Socket::RecvFrom] of a UDP socket: the oldest unread datagram and its
    sender, or null when nothing is pending. *)
Definition RecvFrom (s : Socket) : option (Packet * InetSocketAddress) * Socket :=
  match sk_deliveryQueue s with
  | [] => (None, s)
  | d :: q =>
      (Some d, {| sk_node := sk_node s; sk_tid := sk_tid s; sk_bound := sk_bound s;
                  sk_recvCallback := sk_recvCallback s; sk_deliveryQueue := q |})
  end.

(** A value together with the equation that says where it came from, for
    the termination argument of the loop below. *)
Definition inspect {A : Type} (a : A) : {b : A | a = b} := exist _ a eq_refl.

(** The [while] loop of [ReceivePacket]; [out] collects the lines written. *)
Equations ReceivePacket_loop (now : Time) (s : Socket) (out : list OutLine)
    : Socket * list OutLine by wf (length (sk_deliveryQueue s)) lt :=
  ReceivePacket_loop now s out with inspect (RecvFrom s) := {
    | exist _ (Some (packet, from), s') E =>
        let addr := from in
        ReceivePacket_loop now s'
          (out ++ [OutReceived now (GetSize packet) (GetIpv4 addr)]);
    | exist _ (None, s') E => (s', out) }.
Next Obligation.
  match goal with E : RecvFrom _ = _ |- _ => revert E end.
  unfold RecvFrom. destruct (sk_deliveryQueue s); intros [= _ <-]; simpl. lia.
Qed.

(** [ReceivePacket(socket)], run by the simulator at time [now]. *)
Definition ReceivePacket (now : Time) (socket : SocketPtr) (w : World) : option World :=
  s ← w_sockets w !! socket;
  let r := ReceivePacket_loop now s [] in
  Some (set_cout (w_cout w ++ r.2) (set_sockets (<[socket := r.1]> (w_sockets w)) w)).

(** * The simulation kernel of the specification

    [src/V2X-Main.cc] has no scheduler, medium or packet queue of its own:
    it calls [Simulator::Schedule] and [Simulator::Run], the Wi-Fi PHY and
    the queue discs of ns-3.  The definitions of this module follow
    sections 4.1-4.3 of the specification instead. *)
Module Kernel.

(** ** EventQueue (section 4.1) *)

(** Modelled from the spec: the action of an event, a closure without
    arguments that may schedule further events while it runs; no such type
    exists in src/.  It is given by the requests it makes,
    [(time, action)] pairs in the order of the calls, when it runs at
    [now]. *)
#[warnings="-register-all"]
Inductive Action := Act (run : Z → list (Z * Action)).

Definition run (a : Action) : Z → list (Z * Action) :=
  match a with Act f => f end.

(** An action that schedules nothing. *)
Definition inert (a : Action) : Prop := ∀ now, run a now = [].

(** Modelled from the spec: the Event record of section 3, absent from
    src/: [{scheduledTime, sequence, action}]. *)
Record Event := { scheduledTime : Z; sequence : nat; action : Action }.

(** The key of the priority structure: [(time, sequence)], compared
    lexicographically. *)
Definition key_lt (e1 e2 : Event) : Prop :=
  scheduledTime e1 < scheduledTime e2
  ∨ (scheduledTime e1 = scheduledTime e2 ∧ (sequence e1 < sequence e2)%nat).

Definition key_ltb (e1 e2 : Event) : bool :=
  (scheduledTime e1 <? scheduledTime e2)
  || ((scheduledTime e1 =? scheduledTime e2) && (sequence e1 <? sequence e2)%nat).

(** Modelled from the spec: the EventQueue state of section 4.1, absent from
    src/: the monotonic [now], the tie-break counter, and the pending events
    as a priority structure keyed by (time, sequence), here a list kept in
    key order. *)
Record EventQueue := { now : Z; nextSequence : nat; pending : list Event }.

Definition new_queue : EventQueue := {| now := 0; nextSequence := 0; pending := [] |}.

Inductive Error := InvalidScheduleError.

Fixpoint insert_event (e : Event) (l : list Event) : list Event :=
  match l with
  | [] => [e]
  | x :: l' => if key_ltb e x then e :: x :: l' else x :: insert_event e l'
  end.

(** Modelled from the spec: [schedule(time, action) -> EventHandle] of
    section 4.1, absent from src/; it fails with [InvalidScheduleError] if
    [time < now], otherwise the event takes the next sequence number, which
    is also its handle. *)
Definition schedule (time : Z) (a : Action) (q : EventQueue) : Error + (nat * EventQueue) :=
  if time <? now q then inl InvalidScheduleError
  else
    let e := {| scheduledTime := time; sequence := nextSequence q; action := a |} in
    inr (nextSequence q,
         {| now := now q; nextSequence := S (nextSequence q);
            pending := insert_event e (pending q) |}).

(** A caller that carries on after a failed call. *)
Definition schedule_or_skip (q : EventQueue) (r : Z * Action) : EventQueue :=
  match schedule r.1 r.2 q with
  | inl _ => q
  | inr (_, q') => q'
  end.

Definition schedule_all (reqs : list (Z * Action)) (q : EventQueue) : EventQueue :=
  foldl schedule_or_skip q reqs.

(** Modelled from the spec: [runUntil(stopTime)] of section 4.1, absent from
    src/: an iterative loop that takes the pending event with the least key
    while its time is at most [stopTime], advances [now] to it and runs its
    action, whose requests take effect before the next event is taken.  An
    action may keep the loop going for ever, so the loop is given [fuel]
    iterations; the result is the list of events dispatched, in order, and
    the queue left. *)
Fixpoint runUntil (fuel : nat) (stopTime : Z) (q : EventQueue) : list Event * EventQueue :=
  match fuel with
  | O => ([], q)
  | S fuel =>
      match pending q with
      | [] => ([], q)
      | e :: rest =>
          if scheduledTime e <=? stopTime then
            let q1 := {| now := scheduledTime e; nextSequence := nextSequence q;
                         pending := rest |} in
            let q2 := schedule_all (run (action e) (scheduledTime e)) q1 in
            let r := runUntil fuel stopTime q2 in
            (e :: r.1, r.2)
          else ([], q)
      end
  end.

(** Nothing is left to dispatch up to [stopTime]. *)
Definition drained_until (stopTime : Z) (q : EventQueue) : Prop :=
  Forall (λ e, stopTime < scheduledTime e) (pending q).

(** The events a sequence of calls of [schedule] on the new queue creates
    when every call succeeds: the [i]-th call makes the event with sequence
    number [i]. *)
Definition events_of (reqs : list (Z * Action)) : list Event :=
  imap (λ i r, {| scheduledTime := r.1; sequence := i; action := r.2 |}) reqs.

(** The invariant of the queue: the pending events are in key order, none
    lies in the past, and none has a sequence number still to be given. *)
Record wf (q : EventQueue) : Prop := {
  wf_sorted : StronglySorted key_lt (pending q);
  wf_future : Forall (λ e, now q ≤ scheduledTime e
                           ∧ (sequence e < nextSequence q)%nat) (pending q)
}.

(** [q'] is [q] after some calls of [schedule]. *)
Definition extends (q q' : EventQueue) : Prop :=
  now q' = now q
  ∧ (nextSequence q ≤ nextSequence q')%nat
  ∧ ∀ x, x ∈ pending q' →
      x ∈ pending q ∨ (now q ≤ scheduledTime x ∧ (nextSequence q ≤ sequence x)%nat).

(** ** NodeQueue (section 4.3) *)

(** Modelled from the spec: the Packet record of section 3, absent from src/
    (the script only ever holds ns-3's [Ptr<Packet>]). *)
Record Packet := {
  id : nat;
  sizeBytes : Z;
  sourceNodeId : nat;
  destNodeId : nat;
  enqueueTime : Q;
  deliverTime : option Q
}.

Module NodeQueue.

(** Modelled from the spec: NodeQueueState of section 3, absent from src/:
    [{nodeId, ordered sequence of pending Packet, capacity, droppedCount}]. *)
Record State := {
  nodeId : nat;
  pending : list Packet;
  capacity : Z;
  droppedCount : Z
}.

Inductive Error := QueueFullError.

(** Modelled from the spec: a negative [queueCapacity] is a fatal setup
    error, raised before the run starts (section 7). *)
Definition create (node : nat) (queueCapacity : Z) : option State :=
  if queueCapacity <? 0 then None
  else Some {| nodeId := node; pending := []; capacity := queueCapacity;
               droppedCount := 0 |}.

(** Modelled from the spec: [enqueue(packet) -> bool] of section 4.3, absent
    from src/: "appends if [len(pending) < capacity]; otherwise fails
    ([QueueFullError]), increments [droppedCount]". *)
Definition enqueue (p : Packet) (q : State) : (Error + bool) * State :=
  if Z.of_nat (length (pending q)) <? capacity q
  then (inr true,
        {| nodeId := nodeId q; pending := pending q ++ [p];
           capacity := capacity q; droppedCount := droppedCount q |})
  else (inl QueueFullError,
        {| nodeId := nodeId q; pending := pending q;
           capacity := capacity q; droppedCount := droppedCount q + 1 |}).

(** Modelled from the spec: [dequeue() -> Optional<Packet>] of section 4.3,
    absent from src/: "FIFO pop; yields nothing if empty". *)
Definition dequeue (q : State) : option Packet * State :=
  match pending q with
  | [] => (None, q)
  | p :: rest =>
      (Some p, {| nodeId := nodeId q; pending := rest;
                  capacity := capacity q; droppedCount := droppedCount q |})
  end.

(** The queue after the calls [enqueue(p)] for the packets of [ps], in
    order. *)
Definition enqueue_all (ps : list Packet) (q : State) : State :=
  foldl (λ q p, (enqueue p q).2) q ps.

End NodeQueue.

(** ** Medium (section 4.2) *)

Module Medium.

(** Modelled from the spec: the configuration the Medium takes at
    construction (section 6), absent from src/. *)
Record Config := {
  propagationDelay : Q;
  bitRate : Q;
  collisionWindow : Q
}.

(** Modelled from the spec: MediumState of section 3, absent from src/; of
    its two fields only [busyUntil] takes part in the policy below. *)
Record State := { busyUntil : Q }.

Inductive Outcome :=
| Success (arrivalTime : Q)
| Collision
| Deferred (retryAfter : Q).

(** Modelled from the spec: a zero or negative [bitRate] is a fatal setup
    error (section 7). *)
Definition create (cfg : Config) : option State :=
  if Qle_bool (bitRate cfg) 0 then None else Some {| busyUntil := 0 |}.

(** Modelled from the spec: "[transmissionTime = sizeBytes*8/bitRate]"
    (section 6), absent from src/. *)
Definition transmissionTime (cfg : Config) (sizeBytes : Z) : Q :=
  (inject_Z (sizeBytes * 8) / bitRate cfg)%Q.

(** Modelled from the spec: [attemptSend(nodeId, packet, now)] of section
    4.2, absent from src/: "if [now >= busyUntil], success - compute
    [arrivalTime = now + propagationDelay + transmissionTime], and set
    [busyUntil = now + transmissionTime]; if [now < busyUntil], the sender
    is deferred" until [busyUntil].  The section's collision rule is not
    part of this definition: the specification does not fix how two
    attempts in one window are told apart. *)
Definition attemptSend (cfg : Config) (st : State) (nodeId : nat) (packet : Packet)
    (now : Q) : Outcome * State :=
  if Qle_bool (busyUntil st) now
  then
    let tx := transmissionTime cfg (sizeBytes packet) in
    (Success (now + propagationDelay cfg + tx)%Q, {| busyUntil := (now + tx)%Q |})
  else (Deferred (busyUntil st), st).

End Medium.

(** The scenario's rate: the 6 Mbit/s of the mode the script selects,
    "OfdmRate6Mbps". *)
Definition scenario : Medium.Config :=
  {| Medium.propagationDelay := 0; Medium.bitRate := 6000000 # 1;
     Medium.collisionWindow := 0 |}.

End Kernel.

(** * The vocabulary of the statements *)

(** ** The scheduling loop *)

(** The two lambdas the loop body builds for vehicle [i]. *)
Definition send_lambda (rsuIp : Ipv4Address) (sock : option SocketPtr) (i : Z) : Lambda :=
  {| c_sock := ByCopy sock; c_rsuAddr := ByCopy rsuIp;
     c_port := ByCopy port; c_vehId := ByCopy (wrap32 (i + 1)) |}.

Definition sends_of (rsuIp : Ipv4Address) (sock : option SocketPtr) (i : Z) : list Event :=
  [ {| ev_time := Seconds (1 + i); ev_action := send_lambda rsuIp sock i |};
    {| ev_time := Seconds (2 + i); ev_action := send_lambda rsuIp sock i |} ].

(** All the events the loop has appended after [k] iterations. *)
Fixpoint scheduled (rsuIp : Ipv4Address) (socks : list (option SocketPtr)) (i : Z) : list Event :=
  match socks with
  | [] => []
  | sock :: socks => sends_of rsuIp sock i ++ scheduled rsuIp socks (i + 1)
  end.

(** The socket a lambda captured by copy. *)
Definition captured_sock (f : Lambda) : option (option nat) :=
  match c_sock f with ByCopy v => Some v | ByRef _ => None end.

(** The scheduled events whose lambda holds the socket [sock]. *)
Definition events_of_socket (sock : nat) (evs : list Event) : list Event :=
  filter (λ e, captured_sock (ev_action e) = Some (Some sock)) evs.

(** ** The sockets *)

Definition fresh_socket (node : NodePtr) : Socket :=
  {| sk_node := node; sk_tid := UdpSocketFactory; sk_bound := None;
     sk_recvCallback := None; sk_deliveryQueue := [] |}.

Definition rsu_socket (node : NodePtr) : Socket :=
  {| sk_node := node; sk_tid := UdpSocketFactory;
     sk_bound := Some {| GetIpv4 := Ipv4Address_GetAny; GetPort := port |};
     sk_recvCallback := Some CbReceivePacket;
     sk_deliveryQueue := [] |}.

(** The handles the loop stores in [vehicleSockets]: the sockets are created
    one after the other, the first one at the store's next free index. *)
Definition vehicle_handles (base n : nat) : list (option SocketPtr) :=
  (λ k, Some (base + k)%nat) <$> seq 0 n.

(** ** The ARP caches *)

(** The cache the loop body builds. *)
Definition rsu_entry (rsuMac : Mac48Address) : ArpEntry :=
  {| m_state := PERMANENT; m_macAddress := Some rsuMac |}.

Definition rsu_cache (rsuIp : Ipv4Address) (rsuMac : Mac48Address) : ArpCache :=
  {| m_aliveTimeout := Seconds 3600; m_arpCache := {[ rsuIp := rsu_entry rsuMac ]} |}.

(** The state of the world once the loop has handled the first [k]
    vehicles of [cs], started in [w]. *)
Record arp_done (cs : Containers) (rsuIp : Ipv4Address) (rsuMac : Mac48Address)
    (k : nat) (w w' : World) : Prop := {
  ad_tc : w_tc w' = w_tc w;
  ad_devices : w_devices w' = w_devices w;
  ad_sockets : w_sockets w' = w_sockets w;
  ad_events : w_events w' = w_events w;
  ad_calls : w_calls w' = w_calls w;
  ad_arp : w_arp w' = w_arp w ++ replicate k (rsu_cache rsuIp rsuMac);
  ad_done : ∀ j v, (j < k)%nat → vehicles cs !! j = Some v →
            w_ipv4 w' !! v
            = fmap (SetArpCache (length (w_arp w) + j)%nat) <$> w_ipv4 w !! v;
  ad_rest : ∀ v, v ∉ take k (vehicles cs) → w_ipv4 w' !! v = w_ipv4 w !! v;
  ad_cout : w_cout w' = w_cout w ++ ((λ i, OutArp i rsuIp rsuMac) <$> seqZ 0 (Z.of_nat k))
}.

(** What the helpers guarantee about the vehicles' IP stacks. *)
Definition ipv4_ready (cs : Containers) (w : World) : Prop :=
  ∀ v, v ∈ vehicles cs →
    ∃ ifs, w_ipv4 w !! v = Some ifs ∧ Z.of_nat (length ifs) < 2 ^ 32.

(** ** The queue discs *)

Global Instance QueueDisc_eq_dec : EqDecision QueueDisc.
Proof. solve_decision. Defined.

(** The node of the device has a [TrafficControlLayer]. *)
Definition has_tc (w : World) (d : DevPtr) : Prop :=
  ∃ nd, w_devices w !! d = Some nd ∧ is_Some (w_tc w !! GetNode nd).

(** The root queue disc of a device once the installation is over, in terms
    of the world [w] the installation started from. *)
Definition root_after (cs : Containers) (w : World) (d : DevPtr) : option QueueDisc :=
  if decide (d ∈ devices cs ∧ root_queue_disc w d = None)
  then Some PfifoFastQueueDisc
  else root_queue_disc w d.

(** ** The whole of [main] *)

(** What lines 101-142 guarantee: [vehicles.Create(nVehicles)] and
    [rsu.Create(1)] make distinct nodes, [wifi.Install] one device per node
    of [allNodes], [internet.Install] aggregates an IP stack and a
    [TrafficControlLayer] to every node, [ipv4.Assign] one address per
    device; no event has been scheduled for a lambda of the script. *)
Record helpers_ok (cfg : Config) (cs : Containers) (w : World) : Prop := {
  ok_n : 0 ≤ nVehicles cfg;
  ok_n32 : nVehicles cfg + 1 < 2 ^ 32;
  ok_vehicles : length (vehicles cs) = Z.to_nat (nVehicles cfg);
  ok_vehicles_nodup : NoDup (vehicles cs);
  ok_rsu : length (rsu cs) = 1%nat;
  ok_devices : length (devices cs) = S (Z.to_nat (nVehicles cfg));
  ok_devices_nodup : NoDup (devices cs);
  ok_interfaces : length (interfaces cs) = S (Z.to_nat (nVehicles cfg));
  ok_ipv4 : ipv4_ready cs w;
  ok_tc : ∀ d, d ∈ devices cs → has_tc w d;
  ok_events : w_events w = []
}.

(** The library calls of lines 236-249. *)
Definition setup_calls (cfg : Config) : list ApiCall :=
  (if enablePcap cfg then [CallEnablePcapAll "v2x-sim-final" true] else [])
  ++ [CallCreateFileStream "v2x-sim-final.tr"; CallEnableAsciiAll]
  ++ (if enableFlowMonitor cfg then [CallFlowMonitorInstallAll] else [])
  ++ [CallSimulatorStop (simTime cfg)].

(** The world [Simulator::Run] starts from, in terms of the world [w] the
    helpers left. *)
Record setup_facts (cfg : Config) (cs : Containers) (w : World)
    (rsuIp : Ipv4Address) (rsuMac : Mac48Address) (rsuNode : NodePtr)
    (flowMonitor : option FlowMonitorPtr) (wS : World) : Prop := {
  sf_devices : w_devices wS = w_devices w;
  sf_arp : w_arp wS = w_arp w ++ replicate (Z.to_nat (nVehicles cfg)) (rsu_cache rsuIp rsuMac);
  sf_ipv4 : ∀ j v, (j < Z.to_nat (nVehicles cfg))%nat → vehicles cs !! j = Some v →
            w_ipv4 wS !! v = fmap (SetArpCache (length (w_arp w) + j)%nat) <$> w_ipv4 w !! v;
  sf_roots : ∀ d, root_queue_disc wS d = root_after cs w d;
  sf_sockets : w_sockets wS
               = w_sockets w ++ rsu_socket rsuNode :: (fresh_socket <$> vehicles cs);
  sf_events : w_events wS
              = scheduled rsuIp
                  (vehicle_handles (S (length (w_sockets w))) (Z.to_nat (nVehicles cfg))) 0;
  sf_calls : w_calls wS = w_calls w ++ setup_calls cfg;
  sf_flowMonitor : flowMonitor = if enableFlowMonitor cfg then Some 0%nat else None
}.

(** The library calls [main] makes from line 236 on. *)
Definition main_calls (cfg : Config) : list ApiCall :=
  setup_calls cfg
  ++ [CallSimulatorRun]
  ++ (if enableFlowMonitor cfg
      then [CallCheckForLostPackets; CallSerializeToXmlFile flowmon_file true true]
      else [])
  ++ [CallSimulatorDestroy].

Definition is_install (c : ApiCall) : bool :=
  match c with CallFlowMonitorInstallAll => true | _ => false end.

Definition is_serialize (c : ApiCall) : bool :=
  match c with CallSerializeToXmlFile _ _ _ => true | _ => false end.

(** ** The receive callback *)

(** The line [ReceivePacket] writes for one datagram. *)
Definition line_of (now : Time) (d : Packet * InetSocketAddress) : OutLine :=
  OutReceived now (GetSize d.1) (GetIpv4 d.2).

(** The socket with nothing left to read. *)
Definition drained (s : Socket) : Socket :=
  {| sk_node := sk_node s; sk_tid := sk_tid s; sk_bound := sk_bound s;
     sk_recvCallback := sk_recvCallback s; sk_deliveryQueue := [] |}.

(** ** The default scenario: two vehicles and the RSU *)

Definition ip_10_1_1 (k : Z) : Ipv4Address := 167837952 + k.

Definition sample_interfaces (k : Z) : list Ipv4Interface :=
  [ {| if_addresses := [2130706433]; m_cache := None |};
    {| if_addresses := [ip_10_1_1 k]; m_cache := None |} ].

(** Node [k] carries device [k]; the device of vehicle 1 already has a root
    queue disc, the other two have none. *)
Definition sample_world : World := {|
  w_ipv4 := {[ 0%nat := sample_interfaces 1; 1%nat := sample_interfaces 2;
               2%nat := sample_interfaces 3 ]};
  w_tc := {[ 0%nat := ∅;
             1%nat := {[ 1%nat := OtherQueueDisc "ns3::FqCoDelQueueDisc" ]};
             2%nat := ∅ ]};
  w_devices := [ {| GetNode := 0%nat; GetAddress := 1 |};
                 {| GetNode := 1%nat; GetAddress := 2 |};
                 {| GetNode := 2%nat; GetAddress := 3 |} ];
  w_arp := []; w_sockets := []; w_events := []; w_cout := []; w_calls := []
|}.

Definition sample_cs : Containers := {|
  vehicles := [0%nat; 1%nat];
  rsu := [2%nat];
  devices := [0%nat; 1%nat; 2%nat];
  interfaces := [ip_10_1_1 1; ip_10_1_1 2; ip_10_1_1 3]
|}.

(** Membership in a list that is written out. *)
Ltac in_list :=
  repeat first [apply list_elem_of_here | apply list_elem_of_further].
Ltac not_in H :=
  repeat (apply elem_of_cons in H as [H|H]; [discriminate H|]);
  by apply elem_of_nil in H.

(** * Properties *)

(** ** Reasoning about the loops *)

Lemma seqZ_to_nat (n : Z) : seqZ 0 n = seqZ 0 (Z.of_nat (Z.to_nat n)).
Proof. unfold seqZ. by rewrite Nat2Z.id. Qed.

Lemma for_uint32_steps {S : Type} (body : Z → S → option S) (s : S) (k : nat) :
  for_uint32 (Z.of_nat (Datatypes.S k)) body s
  = for_uint32 (Z.of_nat k) body s ≫= body (Z.of_nat k).
Proof.
  unfold for_uint32. rewrite seqZ_S, foldl_app. simpl.
  by rewrite Z.add_0_l.
Qed.

(** The invariant rule of the loop: an invariant that holds on entry and is
    kept by every iteration, each of which is defined, holds when the loop
    ends, and the loop is defined. *)
Lemma for_uint32_inv {S : Type} (I : Z → S → Prop) (n : Z) (body : Z → S → option S) (s : S) :
  0 ≤ n →
  I 0 s →
  (∀ i t, 0 ≤ i < n → I i t → ∃ t', body i t = Some t' ∧ I (i + 1) t') →
  ∃ t, for_uint32 n body s = Some t ∧ I n t.
Proof.
  intros Hn H0 Hstep.
  assert (Hk : ∀ k : nat, Z.of_nat k ≤ n →
             ∃ t, for_uint32 (Z.of_nat k) body s = Some t ∧ I (Z.of_nat k) t).
  { induction k as [|k IH]; intros Hle.
    - exists s. split; [reflexivity | exact H0].
    - destruct IH as (t & Ht & HI); [lia|].
      destruct (Hstep (Z.of_nat k) t) as (t' & Hb & HI'); [lia | exact HI |].
      exists t'. rewrite for_uint32_steps, Ht. simpl. split; [exact Hb|].
      by replace (Z.of_nat (Datatypes.S k)) with (Z.of_nat k + 1) by lia. }
  destruct (Hk (Z.to_nat n)) as (t & Ht & HI); [lia|].
  exists t. rewrite Z2Nat.id in HI by lia. split; [|exact HI].
  unfold for_uint32 in *. by rewrite seqZ_to_nat.
Qed.

(** ** The scheduling loop *)

Lemma scheduled_app rsuIp l1 l2 i :
  scheduled rsuIp (l1 ++ l2) i
  = scheduled rsuIp l1 i ++ scheduled rsuIp l2 (i + Z.of_nat (length l1)).
Proof.
  revert i. induction l1 as [|s l1 IH]; intros i; simpl.
  - by rewrite Z.add_0_r.
  - rewrite IH. do 4 f_equal. lia.
Qed.

Lemma schedule_body_spec rsuIp socks i w sock :
  socks !! Z.to_nat i = Some sock →
  schedule_body rsuIp socks i w
  = Some (set_events (w_events w ++ sends_of rsuIp sock i) w).
Proof.
  intros H. unfold schedule_body. rewrite H. simpl.
  unfold Schedule, set_events, sends_of, send_lambda, sendStart. simpl.
  rewrite <- app_assoc. simpl.
  by replace (1 + i + 1) with (2 + i) by lia.
Qed.

Lemma schedule_sends_spec cfg rsuIp socks w :
  0 ≤ nVehicles cfg →
  length socks = Z.to_nat (nVehicles cfg) →
  schedule_sends cfg rsuIp socks w
  = Some (set_events (w_events w ++ scheduled rsuIp socks 0) w).
Proof.
  intros Hn Hlen. unfold schedule_sends.
  destruct (for_uint32_inv
    (λ i t, t = set_events (w_events w ++ scheduled rsuIp (take (Z.to_nat i) socks) 0) w)
    (nVehicles cfg) (schedule_body rsuIp socks) w) as (t & Ht & HI); [done | | |].
  - simpl. rewrite app_nil_r. by destruct w.
  - intros i t Hi ->.
    destruct (lookup_lt_is_Some_2 socks (Z.to_nat i)) as [sock Hs]; [lia|].
    exists (set_events (w_events w ++ scheduled rsuIp (take (Z.to_nat (i + 1)) socks) 0) w).
    split; [|done].
    rewrite (schedule_body_spec _ _ _ _ sock Hs). f_equal.
    unfold set_events; simpl. f_equal.
    replace (Z.to_nat (i + 1)) with (Datatypes.S (Z.to_nat i)) by lia.
    rewrite (take_S_r _ _ _ Hs), scheduled_app, <- app_assoc. simpl.
    rewrite length_take, Nat.min_l by lia.
    do 2 f_equal. unfold sends_of.
    by replace (0 + Z.of_nat (Z.to_nat i)) with i by lia.
  - rewrite Ht, HI, firstn_all2 by lia. done.
Qed.

(** ** The sockets *)

Lemma set_sockets_twice x y w : set_sockets x (set_sockets y w) = set_sockets x w.
Proof. reflexivity. Qed.

Lemma open_rsu_socket_spec cs w rsuNode :
  rsu cs !! 0%nat = Some rsuNode →
  open_rsu_socket cs w
  = Some (length (w_sockets w), set_sockets (w_sockets w ++ [rsu_socket rsuNode]) w).
Proof.
  intros H. unfold open_rsu_socket. rewrite H. simpl.
  unfold through_socket. simpl. do 2 f_equal.
  rewrite !set_sockets_twice. f_equal.
  rewrite <- (Nat.add_0_r (length (w_sockets w))).
  by rewrite !alter_app_r.
Qed.

Lemma vehicle_handles_lookup base n k :
  (k < n)%nat → vehicle_handles base n !! k = Some (Some (base + k)%nat).
Proof.
  intros H. unfold vehicle_handles.
  by rewrite list_lookup_fmap, lookup_seq_lt.
Qed.

Lemma vehicle_handles_S base n :
  vehicle_handles base (S n) = vehicle_handles base n ++ [Some (base + n)%nat].
Proof. unfold vehicle_handles. by rewrite seq_S, fmap_app. Qed.

Lemma length_vehicle_handles base n : length (vehicle_handles base n) = n.
Proof. unfold vehicle_handles. by rewrite length_fmap, length_seq. Qed.

Lemma open_vehicle_sockets_spec cfg cs w :
  0 ≤ nVehicles cfg →
  length (vehicles cs) = Z.to_nat (nVehicles cfg) →
  open_vehicle_sockets cfg cs w
  = Some (vehicle_handles (length (w_sockets w)) (Z.to_nat (nVehicles cfg)),
          set_sockets (w_sockets w ++ (fresh_socket <$> vehicles cs)) w).
Proof.
  intros Hn Hlen. unfold open_vehicle_sockets.
  set (n := Z.to_nat (nVehicles cfg)) in *.
  set (base := length (w_sockets w)).
  destruct (for_uint32_inv
    (λ i st, st = (vehicle_handles base (Z.to_nat i) ++ replicate (n - Z.to_nat i) None,
                   set_sockets (w_sockets w ++ (fresh_socket <$> take (Z.to_nat i) (vehicles cs))) w))
    (nVehicles cfg) (socket_body cs) (replicate n None, w)) as (t & Ht & HI); [done | | |].
  - simpl. rewrite Nat.sub_0_r, app_nil_r. by destruct w.
  - intros i t Hi ->.
    destruct (lookup_lt_is_Some_2 (vehicles cs) (Z.to_nat i)) as [v Hv]; [lia|].
    eexists. split; [|reflexivity].
    unfold socket_body. rewrite Hv. simpl.
    replace (n - Z.to_nat i)%nat with (S (n - Z.to_nat (i + 1))) by lia.
    rewrite lookup_app_r by (rewrite length_vehicle_handles; lia).
    rewrite length_vehicle_handles, Nat.sub_diag. simpl.
    rewrite set_sockets_twice. f_equal. f_equal.
    + rewrite insert_app_r_alt by (rewrite length_vehicle_handles; lia).
      rewrite length_vehicle_handles, Nat.sub_diag. simpl.
      replace (Z.to_nat (i + 1)) with (S (Z.to_nat i)) by lia.
      rewrite vehicle_handles_S, <- app_assoc. simpl.
      rewrite length_app, length_fmap, length_take, Nat.min_l by lia.
      done.
    + f_equal. replace (Z.to_nat (i + 1)) with (S (Z.to_nat i)) by lia.
      by rewrite (take_S_r _ _ _ Hv), fmap_app, <- app_assoc.
  - rewrite Ht, HI. unfold n. rewrite Nat.sub_diag, app_nil_r.
    by rewrite firstn_all2 by lia.
Qed.

(** ** The ARP caches *)

Lemma GetN_small {A : Type} (l : list A) :
  Z.of_nat (length l) < 2 ^ 32 → GetN l = Z.of_nat (length l).
Proof. intros H. unfold GetN, wrap32. apply Z.mod_small. lia. Qed.

Lemma set_caches_spec arp ifs :
  Z.of_nat (length ifs) < 2 ^ 32 →
  set_caches arp ifs = Some (SetArpCache arp <$> ifs).
Proof.
  intros Hlen. unfold set_caches. rewrite GetN_small by done.
  destruct (for_uint32_inv
    (λ j t, t = (SetArpCache arp <$> take (Z.to_nat j) ifs) ++ drop (Z.to_nat j) ifs)
    (Z.of_nat (length ifs))
    (λ j t, Some (alter (SetArpCache arp) (Z.to_nat j) t)) ifs) as (t & Ht & HI); [lia | done | |].
  - intros j t Hj ->. eexists. split; [reflexivity|].
    destruct (lookup_lt_is_Some_2 ifs (Z.to_nat j)) as [x Hx]; [lia|].
    rewrite alter_app_r_alt by (rewrite length_fmap, length_take; lia).
    rewrite length_fmap, length_take, Nat.min_l, Nat.sub_diag by lia.
    replace (Z.to_nat (j + 1)) with (S (Z.to_nat j)) by lia.
    rewrite (take_S_r _ _ _ Hx), fmap_app, <- app_assoc.
    by rewrite (drop_S _ _ _ Hx).
  - rewrite Ht, HI, Nat2Z.id, firstn_all, drop_all, app_nil_r. done.
Qed.

Lemma arp_body_spec cs rsuIp rsuMac i w v ifs :
  vehicles cs !! Z.to_nat i = Some v →
  w_ipv4 w !! v = Some ifs →
  Z.of_nat (length ifs) < 2 ^ 32 →
  arp_body cs rsuIp rsuMac i w
  = Some (cout (OutArp i rsuIp rsuMac)
            (set_ipv4 (<[v := SetArpCache (length (w_arp w)) <$> ifs]> (w_ipv4 w))
               (set_arp (w_arp w ++ [rsu_cache rsuIp rsuMac]) w))).
Proof.
  intros Hv Hifs Hlen. unfold arp_body. rewrite Hv. simpl. rewrite Hifs. simpl.
  rewrite (set_caches_spec _ _ Hlen). simpl. do 5 f_equal.
  unfold through_entry, ArpCache_Add, SetAliveTimeout, CreateObject_ArpCache, rsu_cache.
  simpl. f_equal.
  rewrite <- !insert_empty, !alter_insert_eq. done.
Qed.

Lemma NoDup_not_in_take {A : Type} (l : list A) (k : nat) (x : A) :
  NoDup l → l !! k = Some x → x ∉ take k l.
Proof.
  intros Hnd Hk Hin. apply elem_of_take in Hin as (j & Hj & Hlt).
  pose proof (NoDup_lookup _ _ _ _ Hnd Hj Hk). lia.
Qed.

Lemma prepopulate_arp_spec cfg cs rsuIp rsuMac w :
  0 ≤ nVehicles cfg →
  length (vehicles cs) = Z.to_nat (nVehicles cfg) →
  NoDup (vehicles cs) →
  ipv4_ready cs w →
  ∃ w', prepopulate_arp cfg cs rsuIp rsuMac w = Some w'
        ∧ arp_done cs rsuIp rsuMac (Z.to_nat (nVehicles cfg)) w w'.
Proof.
  intros Hn Hlen Hnd Hready. unfold prepopulate_arp.
  apply (for_uint32_inv (λ i t, arp_done cs rsuIp rsuMac (Z.to_nat i) w t)); [done | |].
  - split; try reflexivity.
    + simpl. by rewrite app_nil_r.
    + intros j v Hj. simpl in Hj. lia.
    + simpl. by rewrite app_nil_r.
  - intros i t Hi [Htc Hdev Hsock Hev Hcalls Harp Hdone Hrest Hcout].
    destruct (lookup_lt_is_Some_2 (vehicles cs) (Z.to_nat i)) as [v Hv]; [lia|].
    destruct (Hready v (list_elem_of_lookup_2 _ _ _ Hv)) as (ifs & Hifs & Hsmall).
    pose proof (NoDup_not_in_take _ _ _ Hnd Hv) as Hfresh.
    eexists. split.
    { apply (arp_body_spec _ _ _ _ _ v ifs); [done | | done].
      by rewrite (Hrest v Hfresh). }
    replace (Z.to_nat (i + 1)) with (S (Z.to_nat i)) by lia.
    split; simpl; try done.
    + by rewrite Harp, <- app_assoc, replicate_cons_app.
    + intros j v' Hj Hv'.
      destruct (decide (j = Z.to_nat i)) as [->|Hne].
      * assert (v' = v) as -> by congruence.
        rewrite lookup_insert_eq, Hifs. simpl.
        by rewrite Harp, length_app, length_replicate.
      * assert (v ≠ v') as Hvv.
        { intros ->. apply Hne. by apply (NoDup_lookup _ _ _ _ Hnd Hv' Hv). }
        rewrite lookup_insert_ne by done. apply Hdone; [lia | done].
    + intros v' Hnot. rewrite (take_S_r _ _ _ Hv) in Hnot.
      apply not_elem_of_app in Hnot as [Hnot Hne].
      rewrite lookup_insert_ne; [by apply Hrest|].
      intros ->. apply Hne. by apply list_elem_of_singleton.
    + rewrite Hcout, seqZ_S, fmap_app, <- app_assoc. simpl.
      by rewrite Z2Nat.id by lia.
Qed.

(** ** The queue discs *)

Lemma alreadyHas_spec w d nd :
  w_devices w !! d = Some nd →
  alreadyHas w d = Some (negb (bool_decide (root_queue_disc w d = None))).
Proof.
  intros H. unfold alreadyHas, root_queue_disc, GetRootQueueDiscOnDevice.
  rewrite H. simpl.
  destruct (w_tc w !! GetNode nd) as [tc|]; simpl; [|done].
  by destruct (tc !! d).
Qed.

Lemma select_devices_spec cs w :
  Z.of_nat (length (devices cs)) < 2 ^ 32 →
  (∀ d, d ∈ devices cs → is_Some (w_devices w !! d)) →
  ∃ out, select_devices cs w
         = Some (filter (λ d, root_queue_disc w d = None) (devices cs), set_cout out w).
Proof.
  intros Hlen Hvalid. unfold select_devices. rewrite GetN_small by done.
  destruct (for_uint32_inv
    (λ i st, ∃ out, st = (filter (λ d, root_queue_disc w d = None) (take (Z.to_nat i) (devices cs)),
                          set_cout out w))
    (Z.of_nat (length (devices cs))) (select_body cs) ([], w)) as (t & Ht & out & HI); [lia | | |].
  - exists (w_cout w). simpl. by destruct w.
  - intros i t Hi (out & ->).
    destruct (lookup_lt_is_Some_2 (devices cs) (Z.to_nat i)) as [d Hd]; [lia|].
    destruct (Hvalid d (list_elem_of_lookup_2 _ _ _ Hd)) as [nd Hnd].
    unfold select_body. rewrite Hd. simpl.
    rewrite (alreadyHas_spec _ _ nd) by done. simpl. rewrite negb_involutive.
    replace (Z.to_nat (i + 1)) with (S (Z.to_nat i)) by lia.
    rewrite (take_S_r _ _ _ Hd), filter_app.
    change (root_queue_disc (set_cout out w) d) with (root_queue_disc w d).
    case_bool_decide as Hroot.
    + eexists. split; [reflexivity|]. exists out.
      by rewrite filter_cons_True by done.
    + eexists. split; [reflexivity|]. eexists.
      rewrite filter_cons_False by done. rewrite filter_nil, app_nil_r. reflexivity.
  - exists out. rewrite Ht, HI, Nat2Z.id, firstn_all. done.
Qed.

Lemma tch_Install_cons root d l w :
  tch_Install root (d :: l) w = tch_Install_device root w d ≫= tch_Install root l.
Proof.
  unfold tch_Install. simpl.
  destruct (tch_Install_device root w d); simpl; [done|].
  induction l; simpl; auto.
Qed.

(** One installation: the device gets the root queue disc, every other
    device keeps what it had, and nothing else changes. *)
Lemma tch_Install_device_spec root w d :
  has_tc w d → root_queue_disc w d = None →
  ∃ tcs, tch_Install_device root w d = Some (set_tc tcs w)
         ∧ (∀ d', root_queue_disc (set_tc tcs w) d'
                  = if decide (d' = d) then Some root else root_queue_disc w d')
         ∧ (∀ d', has_tc w d' → has_tc (set_tc tcs w) d').
Proof.
  intros (nd & Hnd & [tc Htc]) Hroot.
  unfold tch_Install_device. rewrite Hnd. simpl. rewrite Htc. simpl.
  assert (tc !! d = None) as Hd.
  { unfold root_queue_disc in Hroot. rewrite Hnd in Hroot. simpl in Hroot.
    rewrite Htc in Hroot. exact Hroot. }
  unfold GetRootQueueDiscOnDevice. rewrite Hd.
  eexists. split; [reflexivity|]. split.
  - intros d'. unfold root_queue_disc. simpl.
    destruct (w_devices w !! d') as [nd'|] eqn:Hnd'; simpl.
    + destruct (decide (GetNode nd' = GetNode nd)) as [Heq|Hne].
      * rewrite Heq, lookup_insert_eq, Htc. simpl.
        unfold GetRootQueueDiscOnDevice.
        destruct (decide (d' = d)) as [->|Hdd].
        -- by rewrite lookup_insert_eq.
        -- by rewrite lookup_insert_ne.
      * rewrite lookup_insert_ne by done.
        destruct (decide (d' = d)) as [->|Hdd]; [|done].
        congruence.
    + destruct (decide (d' = d)) as [->|Hdd]; [congruence | done].
  - intros d' (nd' & Hnd' & Htc'). exists nd'. split; [done|]. simpl.
    destruct (decide (GetNode nd' = GetNode nd)) as [Heq|Hne].
    + by rewrite Heq, lookup_insert_eq.
    + by rewrite lookup_insert_ne.
Qed.

Lemma tch_Install_spec root l :
  NoDup l → ∀ w,
  (∀ d, d ∈ l → has_tc w d ∧ root_queue_disc w d = None) →
  ∃ tcs, tch_Install root l w = Some (set_tc tcs w)
         ∧ (∀ d, root_queue_disc (set_tc tcs w) d
                 = if decide (d ∈ l) then Some root else root_queue_disc w d).
Proof.
  induction 1 as [|d l Hnotin Hnd IH]; intros w Hall.
  - exists (w_tc w). split; [by destruct w|].
    intros d. rewrite decide_False by apply not_elem_of_nil. by destruct w.
  - destruct (Hall d) as [Htc Hroot]; [by left|].
    destruct (tch_Install_device_spec root w d Htc Hroot) as (tcs & Hdev & Hroots & Hkeep).
    destruct (IH (set_tc tcs w)) as (tcs' & Hrest & Hroots').
    { intros d' Hd'. destruct (Hall d') as [Htc' Hroot']; [by right|].
      split; [by apply Hkeep|].
      rewrite Hroots, decide_False; [done|]. by intros ->. }
    exists tcs'. split.
    + rewrite tch_Install_cons, Hdev. simpl. exact Hrest.
    + intros d'. change (set_tc tcs' w) with (set_tc tcs' (set_tc tcs w)).
      rewrite Hroots', Hroots.
      destruct (decide (d' = d)) as [->|Hne].
      * rewrite decide_False by done. rewrite decide_True; [done | by left].
      * destruct (decide (d' ∈ l)) as [Hin|Hout].
        -- rewrite decide_True; [done | by right].
        -- rewrite decide_False; [done|]. by intros [?|?]%elem_of_cons.
Qed.

Lemma root_queue_disc_ext w w' d :
  w_devices w' = w_devices w → w_tc w' = w_tc w →
  root_queue_disc w' d = root_queue_disc w d.
Proof. intros H1 H2. unfold root_queue_disc. by rewrite H1, H2. Qed.

Lemma has_tc_ext w w' d :
  w_devices w' = w_devices w → w_tc w' = w_tc w → has_tc w d → has_tc w' d.
Proof. intros H1 H2 (nd & ? & ?). exists nd. by rewrite H1, H2. Qed.

Lemma install_queue_discs_spec cs w :
  Z.of_nat (length (devices cs)) < 2 ^ 32 →
  NoDup (devices cs) →
  (∀ d, d ∈ devices cs → has_tc w d) →
  ∃ tcs out,
    install_queue_discs cs w = Some (set_cout out (set_tc tcs w))
    ∧ ∀ d, root_queue_disc (set_cout out (set_tc tcs w)) d = root_after cs w d.
Proof.
  intros Hlen Hnd Htc. unfold install_queue_discs.
  destruct (select_devices_spec cs w Hlen) as (out & ->).
  { intros d Hd. destruct (Htc d Hd) as (nd & -> & _). by eexists. }
  simpl. set (l := filter (λ d, root_queue_disc w d = None) (devices cs)).
  assert (Z.of_nat (length l) < 2 ^ 32) as Hl.
  { pose proof (length_filter (λ d, root_queue_disc w d = None) (devices cs)).
    fold l in H. lia. }
  rewrite !GetN_small by done.
  case_bool_decide as Hpos.
  - destruct (tch_Install_spec PfifoFastQueueDisc l) with (w := set_cout out w)
      as (tcs & -> & Hroots).
    { by apply NoDup_filter. }
    { intros d [Hroot Hd]%list_elem_of_filter. split; [|exact Hroot].
      apply (has_tc_ext w); [done | done | by apply Htc]. }
    simpl. eexists tcs, _. split; [reflexivity|].
    intros d. unfold root_after.
    change (root_queue_disc (set_tc tcs (set_cout out w)) d
            = if decide (d ∈ devices cs ∧ root_queue_disc w d = None)
              then Some PfifoFastQueueDisc else root_queue_disc w d).
    rewrite Hroots. change (root_queue_disc (set_cout out w) d) with (root_queue_disc w d).
    destruct (decide (d ∈ l)) as [Hin|Hout].
    + apply list_elem_of_filter in Hin as [? ?]. by rewrite decide_True.
    + rewrite decide_False; [done|]. intros [? ?]. apply Hout.
      by apply list_elem_of_filter.
  - assert (l = []) as Hnil by (destruct l; [done | simpl in Hpos; lia]).
    exists (w_tc w), (w_cout (set_cout out w) ++ [OutNoQueueDiscInstall]).
    split; [reflexivity|].
    intros d. unfold root_after.
    change (root_queue_disc w d
            = if decide (d ∈ devices cs ∧ root_queue_disc w d = None)
              then Some PfifoFastQueueDisc else root_queue_disc w d).
    rewrite decide_False; [done|]. intros [Hd Hroot].
    assert (d ∈ l) as Hin by by apply list_elem_of_filter.
    rewrite Hnil in Hin. by apply not_elem_of_nil in Hin.
Qed.

(** ** The whole of [main] *)

Lemma setup_spec cfg cs w :
  helpers_ok cfg cs w →
  ∃ rsuDev rsuNd rsuIp rsuNode flowMonitor wS,
    devices cs !! Z.to_nat (nVehicles cfg) = Some rsuDev
    ∧ w_devices w !! rsuDev = Some rsuNd
    ∧ interfaces cs !! Z.to_nat (nVehicles cfg) = Some rsuIp
    ∧ rsu cs !! 0%nat = Some rsuNode
    ∧ setup cfg cs w = Some (flowMonitor, wS)
    ∧ setup_facts cfg cs w rsuIp (GetAddress rsuNd) rsuNode flowMonitor wS.
Proof.
  intros [Hn Hn32 Hveh Hvnd Hrsu Hdev Hdnd Hifs Hipv4 Htc Hev].
  destruct (lookup_lt_is_Some_2 (devices cs) (Z.to_nat (nVehicles cfg))) as [rsuDev HrsuDev]; [lia|].
  destruct (Htc rsuDev (list_elem_of_lookup_2 _ _ _ HrsuDev)) as (rsuNd & HrsuNd & _).
  destruct (lookup_lt_is_Some_2 (interfaces cs) (Z.to_nat (nVehicles cfg))) as [rsuIp HrsuIp]; [lia|].
  destruct (lookup_lt_is_Some_2 (rsu cs) 0) as [rsuNode HrsuNode]; [lia|].
  set (rsuMac := GetAddress rsuNd).
  set (w0 := cout (OutBanner (nVehicles cfg) (simTime cfg)) w).
  destruct (prepopulate_arp_spec cfg cs rsuIp rsuMac w0 Hn Hveh Hvnd Hipv4)
    as (w1 & Hw1 & [Atc Adev Asock Aev Acalls Aarp Adone Arest Acout]).
  destruct (install_queue_discs_spec cs w1) as (tcs & out & Hw2 & Hroots);
    [lia | done | |].
  { intros d Hd. apply (has_tc_ext w); [done | done | by apply Htc]. }
  set (w2 := set_cout out (set_tc tcs w1)) in *.
  exists rsuDev, rsuNd, rsuIp, rsuNode. do 2 eexists.
  split; [exact HrsuDev|]. split; [exact HrsuNd|].
  split; [exact HrsuIp|]. split; [exact HrsuNode|]. split.
  { unfold setup. fold w0. rewrite HrsuDev. simpl.
    change (w_devices w0) with (w_devices w). rewrite HrsuNd. simpl.
    rewrite HrsuIp. simpl. fold rsuMac. rewrite Hw1. simpl. rewrite Hw2. simpl.
    rewrite (open_rsu_socket_spec cs w2 rsuNode HrsuNode). simpl.
    rewrite open_vehicle_sockets_spec by done. simpl.
    rewrite schedule_sends_spec by (rewrite ?length_vehicle_handles; done).
    reflexivity. }
  destruct (enablePcap cfg) eqn:Ep, (enableFlowMonitor cfg) eqn:Ef;
    (split; simpl;
     [ rewrite Adev; reflexivity
     | rewrite Aarp; reflexivity
     | intros j v Hj Hv; rewrite (Adone j v Hj Hv); reflexivity
     | intros d; transitivity (root_after cs w1 d);
       [ exact (Hroots d)
       | unfold root_after; rewrite (root_queue_disc_ext w w1 d Adev Atc);
         reflexivity ]
     | rewrite Asock, <- app_assoc; reflexivity
     | rewrite Aev; change (w_events w0) with (w_events w); rewrite Hev; simpl;
       rewrite length_app, Asock; simpl;
       replace (length (w_sockets w) + 1)%nat with (S (length (w_sockets w))) by lia;
       reflexivity
     | rewrite Acalls; unfold setup_calls; rewrite Ep, Ef; simpl;
       rewrite <- ?app_assoc; reflexivity
     | by rewrite ?Ef ]).
Qed.

Lemma main_spec cfg cs w :
  helpers_ok cfg cs w →
  ∃ rsuDev rsuNd rsuIp rsuNode flowMonitor wS,
    devices cs !! Z.to_nat (nVehicles cfg) = Some rsuDev
    ∧ w_devices w !! rsuDev = Some rsuNd
    ∧ interfaces cs !! Z.to_nat (nVehicles cfg) = Some rsuIp
    ∧ rsu cs !! 0%nat = Some rsuNode
    ∧ setup cfg cs w = Some (flowMonitor, wS)
    ∧ setup_facts cfg cs w rsuIp (GetAddress rsuNd) rsuNode flowMonitor wS
    ∧ main cfg cs w = Some (finish cfg flowMonitor (call CallSimulatorRun wS)).
Proof.
  intros Hok.
  destruct (setup_spec cfg cs w Hok)
    as (rsuDev & rsuNd & rsuIp & rsuNode & fm & wS & H1 & H2 & H3 & H4 & H5 & H6).
  exists rsuDev, rsuNd, rsuIp, rsuNode, fm, wS.
  repeat (split; [assumption|]).
  unfold main. rewrite H5. reflexivity.
Qed.

(** [finish] and the call of [Simulator::Run] only extend the list of
    library calls. *)
Lemma finish_frame cfg fm w :
  ∃ calls, finish cfg fm (call CallSimulatorRun w) = set_calls calls w.
Proof.
  unfold finish.
  destruct (enableFlowMonitor cfg && bool_decide (is_Some fm)); eexists; reflexivity.
Qed.

(** ** The events of one socket *)

Lemma events_of_socket_sends rsuIp (p sock : nat) i :
  events_of_socket sock (sends_of rsuIp (Some p) i)
  = if decide (p = sock) then sends_of rsuIp (Some p) i else [].
Proof.
  unfold events_of_socket, sends_of.
  destruct (decide (p = sock)) as [->|Hne].
  - rewrite !filter_cons_True by done. done.
  - rewrite !filter_cons_False by (simpl; intros [= ?]; contradiction). done.
Qed.

Lemma events_of_socket_scheduled rsuIp (b sock : nat) (n : nat) :
  ∀ (s : nat) (z : Z),
  events_of_socket sock
    (scheduled rsuIp ((λ k, Some (b + k)%nat) <$> seq s n) z)
  = if decide (b + s ≤ sock < b + s + n)%nat
    then sends_of rsuIp (Some sock) (z + Z.of_nat (sock - b - s))
    else [].
Proof.
  induction n as [|n IH]; intros s z; simpl.
  - rewrite decide_False by lia. done.
  - unfold events_of_socket in *. 
    change (filter (λ e, captured_sock (ev_action e) = Some (Some sock))
              (sends_of rsuIp (Some (b + s)%nat) z
               ++ scheduled rsuIp ((λ k, Some (b + k)%nat) <$> seq (S s) n) (z + 1))
            = if decide (b + s ≤ sock < b + s + S n)%nat
              then sends_of rsuIp (Some sock) (z + Z.of_nat (sock - b - s))
              else []).
    rewrite filter_app, IH.
    pose proof (events_of_socket_sends rsuIp (b + s) sock z) as Hs.
    unfold events_of_socket in Hs. rewrite Hs.
    destruct (decide ((b + s)%nat = sock)) as [<-|Hne].
    + rewrite decide_False by lia. rewrite decide_True by lia.
      rewrite app_nil_r. do 2 f_equal. lia.
    + simpl. destruct (decide (b + S s ≤ sock < b + S s + n)%nat).
      * rewrite decide_True by lia. f_equal. lia.
      * rewrite decide_False by lia. done.
Qed.

Lemma scheduled_head rsuIp socks sock z :
  socks !! 0%nat = Some sock →
  scheduled rsuIp socks z !! 0%nat
  = Some {| ev_time := Seconds (1 + z); ev_action := send_lambda rsuIp sock z |}.
Proof. destruct socks; [done|]. intros [= ->]. reflexivity. Qed.

Lemma sample_helpers_ok : helpers_ok defaults sample_cs sample_world.
Proof.
  split.
  - simpl. lia.
  - simpl. lia.
  - reflexivity.
  - apply NoDup_cons. split; [by intros [=]%list_elem_of_singleton|].
    apply NoDup_singleton.
  - reflexivity.
  - reflexivity.
  - apply NoDup_cons. split.
    { intros [[=]|[=]%list_elem_of_singleton]%elem_of_cons. }
    apply NoDup_cons. split; [by intros [=]%list_elem_of_singleton|].
    apply NoDup_singleton.
  - reflexivity.
  - intros v Hv.
    apply elem_of_cons in Hv as [->|Hv];
      [|apply list_elem_of_singleton in Hv as ->];
      eexists; (split; [vm_compute; reflexivity | simpl; lia]).
  - intros d Hd.
    apply elem_of_cons in Hd as [->|Hd];
      [|apply elem_of_cons in Hd as [->|Hd];
        [|apply list_elem_of_singleton in Hd as ->]];
      eexists; (split; [vm_compute; reflexivity | vm_compute; eauto]).
  - reflexivity.
Defined.

(** ** What [main] and the callbacks guarantee *)

(** C2.  For every vehicle index [i] below [nVehicles], [main] schedules
    exactly two events whose lambda holds the UDP socket created on vehicle
    [i]'s node, due at [1 + i] and [2 + i] seconds; whenever one of them
    runs it makes exactly one [SendTo] on that socket, of a packet with a
    100-byte payload, to the RSU's address and port 5000.  The first event
    of vehicle 0 is due at 1 s and is the first event scheduled. *)
Theorem sends_scheduled cfg cs w :
  helpers_ok cfg cs w →
  ∃ wF rsuIp,
    main cfg cs w = Some wF
    ∧ interfaces cs !! Z.to_nat (nVehicles cfg) = Some rsuIp
    ∧ ∀ i, 0 ≤ i < nVehicles cfg →
      ∃ vehNode sock e1 e2,
        vehicles cs !! Z.to_nat i = Some vehNode
        ∧ w_sockets wF !! sock = Some (fresh_socket vehNode)
        ∧ events_of_socket sock (w_events wF) = [e1; e2]
        ∧ ev_time e1 = Seconds (1 + i)
        ∧ ev_time e2 = Seconds (2 + i)
        ∧ (i = 0 → w_events wF !! 0%nat = Some e1 ∧ ev_time e1 = 1000000000)
        ∧ ∀ e now fr, e ∈ [e1; e2] →
            invoke (ev_action e) now fr
            = Some [ActSendTo sock (Create_Packet 100) 0
                      {| GetIpv4 := rsuIp; GetPort := 5000 |};
                    ActCout (OutSent now (i + 1) rsuIp 5000)].
Proof.
  intros Hok.
  destruct (main_spec cfg cs w Hok)
    as (rsuDev & rsuNd & rsuIp & rsuNode & fm & wS & _ & _ & HrsuIp & _ & _ & Hf & Hmain).
  destruct (finish_frame cfg fm wS) as [calls Hfin].
  destruct Hok as [Hn Hn32 Hveh _ _ _ _ _ _ _ _].
  destruct Hf as [_ _ _ _ Hsock Hev _ _].
  eexists _, rsuIp. split; [exact Hmain|]. split; [exact HrsuIp|].
  rewrite Hfin. simpl. rewrite Hsock, Hev.
  intros i Hi.
  destruct (lookup_lt_is_Some_2 (vehicles cs) (Z.to_nat i)) as [vehNode Hv]; [lia|].
  set (base := length (w_sockets w)).
  exists vehNode, (S base + Z.to_nat i)%nat.
  exists {| ev_time := Seconds (1 + i);
            ev_action := send_lambda rsuIp (Some (S base + Z.to_nat i)%nat) i |},
         {| ev_time := Seconds (2 + i);
            ev_action := send_lambda rsuIp (Some (S base + Z.to_nat i)%nat) i |}.
  split; [exact Hv|]. split.
  { rewrite lookup_app_r by (unfold base; lia).
    replace (S base + Z.to_nat i - length (w_sockets w))%nat with (S (Z.to_nat i))
      by (unfold base; lia).
    simpl. by rewrite list_lookup_fmap, Hv. }
  split.
  { unfold vehicle_handles. rewrite events_of_socket_scheduled.
    rewrite decide_True by lia. unfold sends_of.
    by replace (0 + Z.of_nat (S base + Z.to_nat i - S base - 0)) with i by lia. }
  split; [reflexivity|]. split; [reflexivity|]. split.
  { intros ->. split; [|reflexivity].
    rewrite (scheduled_head rsuIp _ (Some (S base + 0)%nat)).
    - reflexivity.
    - apply vehicle_handles_lookup. lia. }
  intros e now fr He.
  assert (ev_action e = send_lambda rsuIp (Some (S base + Z.to_nat i)%nat) i) as ->.
  { apply elem_of_cons in He as [->|He]; [done|].
    by apply list_elem_of_singleton in He as ->. }
  unfold invoke, SendPacket, send_lambda, port. simpl.
  unfold wrap32. rewrite Z.mod_small by lia. reflexivity.
Qed.

Lemma sends_scheduled_witness :
  helpers_ok defaults sample_cs sample_world
  ∧ ∃ wF rsuIp,
      main defaults sample_cs sample_world = Some wF
      ∧ interfaces sample_cs !! Z.to_nat (nVehicles defaults) = Some rsuIp
      ∧ ∀ i, 0 ≤ i < nVehicles defaults →
        ∃ vehNode sock e1 e2,
          vehicles sample_cs !! Z.to_nat i = Some vehNode
          ∧ w_sockets wF !! sock = Some (fresh_socket vehNode)
          ∧ events_of_socket sock (w_events wF) = [e1; e2]
          ∧ ev_time e1 = Seconds (1 + i)
          ∧ ev_time e2 = Seconds (2 + i)
          ∧ (i = 0 → w_events wF !! 0%nat = Some e1 ∧ ev_time e1 = 1000000000)
          ∧ ∀ e now fr, e ∈ [e1; e2] →
              invoke (ev_action e) now fr
              = Some [ActSendTo sock (Create_Packet 100) 0
                        {| GetIpv4 := rsuIp; GetPort := 5000 |};
                      ActCout (OutSent now (i + 1) rsuIp 5000)].
Proof.
  split; [exact sample_helpers_ok|].
  exact (sends_scheduled defaults sample_cs sample_world sample_helpers_ok).
Defined.

Lemma elem_of_scheduled rsuIp socks :
  ∀ z e, e ∈ scheduled rsuIp socks z →
  ∃ (k : nat) sock, socks !! k = Some sock ∧ e ∈ sends_of rsuIp sock (z + Z.of_nat k).
Proof.
  induction socks as [|s socks IH]; intros z e He; simpl in He.
  - by apply not_elem_of_nil in He.
  - change (e ∈ sends_of rsuIp s z ++ scheduled rsuIp socks (z + 1)) in He.
    apply elem_of_app in He as [He|He].
    + exists 0%nat, s. split; [done|]. by rewrite Z.add_0_r.
    + destruct (IH _ _ He) as (k & sock & Hk & Hin).
      exists (S k), sock. split; [done|].
      by replace (z + Z.of_nat (S k)) with (z + 1 + Z.of_nat k) by lia.
Qed.

(** A member captured by reference would make the send depend on what the
    loop variable holds when the event runs. *)
Example by_reference_depends_on_frame :
  let f := {| c_sock := ByCopy (Some 1%nat); c_rsuAddr := ByCopy 7;
              c_port := ByCopy port; c_vehId := ByRef v_vehId |} in
  let fr k := {| v_i := k; v_rsuAddr := 7; v_vehId := k + 1; v_tsend := 1 + k;
                 v_port := port; v_vehicleSockets := [] |} in
  captures_by_copy f = false ∧ invoke f 0 (fr 0) ≠ invoke f 0 (fr 1).
Proof. split; [reflexivity | discriminate]. Qed.

(** C7.  Every lambda [main] schedules captures its four members (the
    socket handle, the RSU address, the port, the vehicle id) by copy, none
    by reference; so whatever [main]'s variables hold when the event runs,
    the send goes to the RSU address and port 5000 and reports the vehicle
    id [i + 1] of the iteration [i] that scheduled it. *)
Theorem lambdas_capture_by_copy cfg cs w :
  helpers_ok cfg cs w →
  ∃ wF rsuIp,
    main cfg cs w = Some wF
    ∧ interfaces cs !! Z.to_nat (nVehicles cfg) = Some rsuIp
    ∧ ∀ e, e ∈ w_events wF →
        captures_by_copy (ev_action e) = true
        ∧ ∃ i sock,
            0 ≤ i < nVehicles cfg
            ∧ (ev_time e = Seconds (1 + i) ∨ ev_time e = Seconds (2 + i))
            ∧ ∀ now fr,
                invoke (ev_action e) now fr
                = Some [ActSendTo sock (Create_Packet 100) 0
                          {| GetIpv4 := rsuIp; GetPort := 5000 |};
                        ActCout (OutSent now (i + 1) rsuIp 5000)].
Proof.
  intros Hok.
  destruct (main_spec cfg cs w Hok)
    as (rsuDev & rsuNd & rsuIp & rsuNode & fm & wS & _ & _ & HrsuIp & _ & _ & Hf & Hmain).
  destruct (finish_frame cfg fm wS) as [calls Hfin].
  destruct Hok as [Hn Hn32 Hveh _ _ _ _ _ _ _ _].
  destruct Hf as [_ _ _ _ _ Hev _ _].
  eexists _, rsuIp. split; [exact Hmain|]. split; [exact HrsuIp|].
  rewrite Hfin. simpl. rewrite Hev. intros e He.
  apply elem_of_scheduled in He as (k & sock & Hk & He).
  assert (k < Z.to_nat (nVehicles cfg))%nat as Hlt.
  { apply lookup_lt_Some in Hk. by rewrite length_vehicle_handles in Hk. }
  rewrite vehicle_handles_lookup in Hk by done. injection Hk as <-.
  assert (ev_action e
          = send_lambda rsuIp (Some (S (length (w_sockets w)) + k)%nat) (0 + Z.of_nat k)
          ∧ (ev_time e = Seconds (1 + (0 + Z.of_nat k))
             ∨ ev_time e = Seconds (2 + (0 + Z.of_nat k)))) as [-> Ht].
  { apply elem_of_cons in He as [->|He]; [split; [done | by left]|].
    apply list_elem_of_singleton in He as ->. split; [done | by right]. }
  split; [reflexivity|].
  exists (0 + Z.of_nat k), (S (length (w_sockets w)) + k)%nat.
  split; [lia|]. split; [exact Ht|].
  intros now fr. unfold invoke, SendPacket, send_lambda, port. simpl.
  unfold wrap32. rewrite Z.mod_small by lia. reflexivity.
Qed.

Lemma lambdas_capture_by_copy_witness :
  helpers_ok defaults sample_cs sample_world
  ∧ ∃ wF rsuIp,
      main defaults sample_cs sample_world = Some wF
      ∧ interfaces sample_cs !! Z.to_nat (nVehicles defaults) = Some rsuIp
      ∧ ∀ e, e ∈ w_events wF →
          captures_by_copy (ev_action e) = true
          ∧ ∃ i sock,
              0 ≤ i < nVehicles defaults
              ∧ (ev_time e = Seconds (1 + i) ∨ ev_time e = Seconds (2 + i))
              ∧ ∀ now fr,
                  invoke (ev_action e) now fr
                  = Some [ActSendTo sock (Create_Packet 100) 0
                            {| GetIpv4 := rsuIp; GetPort := 5000 |};
                          ActCout (OutSent now (i + 1) rsuIp 5000)].
Proof.
  split; [exact sample_helpers_ok|].
  exact (lambdas_capture_by_copy defaults sample_cs sample_world sample_helpers_ok).
Defined.

(** C4.  In the world [Simulator::Run] starts from, every IPv4 interface of
    every vehicle node holds an ARP cache whose alive timeout is 3600 s and
    whose entry for the RSU's IPv4 address is permanent and carries the
    RSU's MAC address; the node has the interfaces it had, each with the
    cache set, so a lookup of the RSU's address in the cache of any of them
    finds the MAC address in a permanent entry. *)
Theorem arp_prepopulated cfg cs w :
  helpers_ok cfg cs w →
  ∃ flowMonitor wS rsuDev rsuNd rsuIp,
    setup cfg cs w = Some (flowMonitor, wS)
    ∧ devices cs !! Z.to_nat (nVehicles cfg) = Some rsuDev
    ∧ w_devices w !! rsuDev = Some rsuNd
    ∧ interfaces cs !! Z.to_nat (nVehicles cfg) = Some rsuIp
    ∧ ∀ i vehNode,
        0 ≤ i < nVehicles cfg →
        vehicles cs !! Z.to_nat i = Some vehNode →
        ∃ ifs ifs',
          w_ipv4 w !! vehNode = Some ifs
          ∧ w_ipv4 wS !! vehNode = Some ifs'
          ∧ if_addresses <$> ifs' = if_addresses <$> ifs
          ∧ ∀ iface, iface ∈ ifs' →
              ∃ arp c,
                m_cache iface = Some arp
                ∧ w_arp wS !! arp = Some c
                ∧ m_aliveTimeout c = Seconds 3600
                ∧ m_arpCache c !! rsuIp
                  = Some {| m_state := PERMANENT;
                            m_macAddress := Some (GetAddress rsuNd) |}.
Proof.
  intros Hok.
  destruct (setup_spec cfg cs w Hok)
    as (rsuDev & rsuNd & rsuIp & rsuNode & fm & wS & H1 & H2 & H3 & _ & Hs & Hf).
  exists fm, wS, rsuDev, rsuNd, rsuIp.
  repeat (split; [assumption|]).
  destruct Hok as [Hn _ Hveh _ _ _ _ _ Hready _ _].
  destruct Hf as [_ Harp Hipv4 _ _ _ _ _].
  intros i vehNode Hi Hv.
  destruct (Hready vehNode (list_elem_of_lookup_2 _ _ _ Hv)) as (ifs & Hifs & _).
  exists ifs, (SetArpCache (length (w_arp w) + Z.to_nat i)%nat <$> ifs).
  split; [exact Hifs|]. split.
  { rewrite (Hipv4 (Z.to_nat i) vehNode) by (done || lia). by rewrite Hifs. }
  split.
  { rewrite <- list_fmap_compose. reflexivity. }
  intros iface (x & -> & Hx)%list_elem_of_fmap.
  exists (length (w_arp w) + Z.to_nat i)%nat, (rsu_cache rsuIp (GetAddress rsuNd)).
  split; [reflexivity|]. split.
  { rewrite Harp, lookup_app_r by lia.
    apply lookup_replicate_2. lia. }
  split; [reflexivity|].
  unfold rsu_cache, rsu_entry. simpl. apply lookup_singleton_eq.
Qed.

Lemma arp_prepopulated_witness :
  helpers_ok defaults sample_cs sample_world
  ∧ ∃ flowMonitor wS rsuDev rsuNd rsuIp,
      setup defaults sample_cs sample_world = Some (flowMonitor, wS)
      ∧ devices sample_cs !! Z.to_nat (nVehicles defaults) = Some rsuDev
      ∧ w_devices sample_world !! rsuDev = Some rsuNd
      ∧ interfaces sample_cs !! Z.to_nat (nVehicles defaults) = Some rsuIp
      ∧ ∀ i vehNode,
          0 ≤ i < nVehicles defaults →
          vehicles sample_cs !! Z.to_nat i = Some vehNode →
          ∃ ifs ifs',
            w_ipv4 sample_world !! vehNode = Some ifs
            ∧ w_ipv4 wS !! vehNode = Some ifs'
            ∧ if_addresses <$> ifs' = if_addresses <$> ifs
            ∧ ∀ iface, iface ∈ ifs' →
                ∃ arp c,
                  m_cache iface = Some arp
                  ∧ w_arp wS !! arp = Some c
                  ∧ m_aliveTimeout c = Seconds 3600
                  ∧ m_arpCache c !! rsuIp
                    = Some {| m_state := PERMANENT;
                              m_macAddress := Some (GetAddress rsuNd) |}.
Proof.
  split; [exact sample_helpers_ok|].
  exact (arp_prepopulated defaults sample_cs sample_world sample_helpers_ok).
Defined.

(** C8.  The selection loop puts a device of [devices] into
    [devicesToInstall] exactly when it has no root queue disc, and puts it
    there once; the installation then succeeds, gives each of these devices
    the [PfifoFastQueueDisc] root and leaves a device that had a root queue
    disc with the one it had.  So afterwards every device has a root queue
    disc and none was installed on twice. *)
Theorem queue_discs_installed_once cs w :
  Z.of_nat (length (devices cs)) < 2 ^ 32 →
  NoDup (devices cs) →
  (∀ d, d ∈ devices cs → has_tc w d) →
  ∃ devicesToInstall out w',
    select_devices cs w = Some (devicesToInstall, set_cout out w)
    ∧ (∀ d, d ∈ devicesToInstall ↔ d ∈ devices cs ∧ root_queue_disc w d = None)
    ∧ NoDup devicesToInstall
    ∧ install_queue_discs cs w = Some w'
    ∧ ∀ d, d ∈ devices cs →
        is_Some (root_queue_disc w' d)
        ∧ (root_queue_disc w d = None →
           root_queue_disc w' d = Some PfifoFastQueueDisc)
        ∧ (∀ q, root_queue_disc w d = Some q → root_queue_disc w' d = Some q).
Proof.
  intros Hlen Hnd Htc.
  destruct (select_devices_spec cs w Hlen) as (out & Hsel).
  { intros d Hd. destruct (Htc d Hd) as (nd & -> & _). by eexists. }
  destruct (install_queue_discs_spec cs w Hlen Hnd Htc) as (tcs & out' & Hinst & Hroots).
  eexists _, out, _. split; [exact Hsel|]. split.
  { intros d. rewrite list_elem_of_filter. tauto. }
  split; [by apply NoDup_filter|]. split; [exact Hinst|].
  intros d Hd. rewrite Hroots. unfold root_after.
  destruct (root_queue_disc w d) as [q|] eqn:Hq.
  - rewrite decide_False by (intros [_ [=]]).
    split; [by eexists|]. split; [intros [=] | done].
  - rewrite decide_True by done.
    split; [by eexists|]. split; [done | intros q [=]].
Qed.

Lemma queue_discs_installed_once_witness :
  Z.of_nat (length (devices sample_cs)) < 2 ^ 32
  ∧ NoDup (devices sample_cs)
  ∧ (∀ d, d ∈ devices sample_cs → has_tc sample_world d)
  ∧ ∃ devicesToInstall out w',
      select_devices sample_cs sample_world
      = Some (devicesToInstall, set_cout out sample_world)
      ∧ (∀ d, d ∈ devicesToInstall
              ↔ d ∈ devices sample_cs ∧ root_queue_disc sample_world d = None)
      ∧ NoDup devicesToInstall
      ∧ install_queue_discs sample_cs sample_world = Some w'
      ∧ ∀ d, d ∈ devices sample_cs →
          is_Some (root_queue_disc w' d)
          ∧ (root_queue_disc sample_world d = None →
             root_queue_disc w' d = Some PfifoFastQueueDisc)
          ∧ (∀ q, root_queue_disc sample_world d = Some q →
                  root_queue_disc w' d = Some q).
Proof.
  assert (Z.of_nat (length (devices sample_cs)) < 2 ^ 32) as H1 by (simpl; lia).
  pose proof (ok_devices_nodup _ _ _ sample_helpers_ok) as H2.
  pose proof (ok_tc _ _ _ sample_helpers_ok) as H3.
  split; [exact H1|]. split; [exact H2|]. split; [exact H3|].
  exact (queue_discs_installed_once sample_cs sample_world H1 H2 H3).
Defined.

Lemma main_calls_spec cfg cs w :
  helpers_ok cfg cs w →
  ∃ wF, main cfg cs w = Some wF ∧ w_calls wF = w_calls w ++ main_calls cfg.
Proof.
  intros Hok.
  destruct (main_spec cfg cs w Hok)
    as (rsuDev & rsuNd & rsuIp & rsuNode & fm & wS & _ & _ & _ & _ & _ & Hf & Hmain).
  eexists. split; [exact Hmain|].
  destruct Hf as [_ _ _ _ _ _ Hcalls Hfm].
  unfold finish, main_calls. rewrite Hfm.
  destruct (enableFlowMonitor cfg); simpl; rewrite Hcalls, <- ?app_assoc; reflexivity.
Qed.

(** C9.  [main] runs to its end, and of the library calls it makes from
    line 236 on: with [enableFlowMonitor] set, the last six are
    [InstallAll], [Stop], [Run], [CheckForLostPackets], the serialisation to
    "v2x-sim-final-flowmon.xml" and [Destroy], in this order, and no other
    call installs a monitor or serialises one; with the flag clear, no call
    installs a monitor and none serialises one.  So the file is written
    exactly when the flag is set. *)
Theorem flow_monitor_file_iff_enabled cfg cs w :
  helpers_ok cfg cs w →
  ∃ wF calls,
    main cfg cs w = Some wF
    ∧ w_calls wF = w_calls w ++ calls
    ∧ (enableFlowMonitor cfg = true →
       ∃ pre, calls = pre ++ [CallFlowMonitorInstallAll;
                              CallSimulatorStop (simTime cfg);
                              CallSimulatorRun;
                              CallCheckForLostPackets;
                              CallSerializeToXmlFile "v2x-sim-final-flowmon.xml" true true;
                              CallSimulatorDestroy]
              ∧ Forall (λ c, is_install c = false ∧ is_serialize c = false) pre)
    ∧ (enableFlowMonitor cfg = false →
       CallSimulatorRun ∈ calls
       ∧ Forall (λ c, is_install c = false ∧ is_serialize c = false) calls)
    ∧ (CallSerializeToXmlFile "v2x-sim-final-flowmon.xml" true true ∈ calls
       ↔ enableFlowMonitor cfg = true)
    ∧ (CallFlowMonitorInstallAll ∈ calls ↔ enableFlowMonitor cfg = true).
Proof.
  intros Hok.
  destruct (main_calls_spec cfg cs w Hok) as (wF & Hmain & Hcalls).
  exists wF, (main_calls cfg). split; [exact Hmain|]. split; [exact Hcalls|].
  unfold main_calls, setup_calls, flowmon_file.
  destruct (enableFlowMonitor cfg), (enablePcap cfg); simpl.
  - split; [intros _|split; [discriminate|split; (split; [done|intros _; in_list])]].
    exists [CallEnablePcapAll "v2x-sim-final" true;
            CallCreateFileStream "v2x-sim-final.tr"; CallEnableAsciiAll].
    split; [reflexivity | repeat constructor].
  - split; [intros _|split; [discriminate|split; (split; [done|intros _; in_list])]].
    exists [CallCreateFileStream "v2x-sim-final.tr"; CallEnableAsciiAll].
    split; [reflexivity | repeat constructor].
  - split; [discriminate|].
    split; [intros _; split; [in_list | repeat constructor]|].
    split; (split; [intros H; not_in H | discriminate]).
  - split; [discriminate|].
    split; [intros _; split; [in_list | repeat constructor]|].
    split; (split; [intros H; not_in H | discriminate]).
Qed.

Lemma flow_monitor_file_iff_enabled_witness :
  helpers_ok defaults sample_cs sample_world
  ∧ ∃ wF calls,
      main defaults sample_cs sample_world = Some wF
      ∧ w_calls wF = w_calls sample_world ++ calls
      ∧ (enableFlowMonitor defaults = true →
         ∃ pre, calls = pre ++ [CallFlowMonitorInstallAll;
                                CallSimulatorStop (simTime defaults);
                                CallSimulatorRun;
                                CallCheckForLostPackets;
                                CallSerializeToXmlFile "v2x-sim-final-flowmon.xml" true true;
                                CallSimulatorDestroy]
                ∧ Forall (λ c, is_install c = false ∧ is_serialize c = false) pre)
      ∧ (enableFlowMonitor defaults = false →
         CallSimulatorRun ∈ calls
         ∧ Forall (λ c, is_install c = false ∧ is_serialize c = false) calls)
      ∧ (CallSerializeToXmlFile "v2x-sim-final-flowmon.xml" true true ∈ calls
         ↔ enableFlowMonitor defaults = true)
      ∧ (CallFlowMonitorInstallAll ∈ calls ↔ enableFlowMonitor defaults = true).
Proof.
  split; [exact sample_helpers_ok|].
  exact (flow_monitor_file_iff_enabled defaults sample_cs sample_world sample_helpers_ok).
Defined.

(** ** The receive callback *)

Lemma RecvFrom_inv s r s' :
  RecvFrom s = (r, s') →
  match r with
  | Some d => ∃ q, sk_deliveryQueue s = d :: q ∧ sk_deliveryQueue s' = q
                   ∧ drained s' = drained s
  | None => sk_deliveryQueue s = [] ∧ s' = s
  end.
Proof.
  unfold RecvFrom. destruct (sk_deliveryQueue s) as [|d q] eqn:E; intros [= <- <-].
  - done.
  - exists q. done.
Qed.

Lemma ReceivePacket_loop_spec now s out :
  ReceivePacket_loop now s out
  = (drained s, out ++ (line_of now <$> sk_deliveryQueue s)).
Proof.
  funelim (ReceivePacket_loop now s out).
  - pose proof (RecvFrom_inv _ _ _ E) as (q & Hq & Hq' & Hd).
    match goal with IH : ReceivePacket_loop _ _ _ = (_, _) |- _ => rewrite IH end.
    rewrite Hd, Hq, Hq', <- app_assoc. reflexivity.
  - pose proof (RecvFrom_inv _ _ _ E) as [Hq Hs']. rewrite Hs', Hq, app_nil_r.
    f_equal. clear -Hq. destruct s; simpl in *; by subst.
Qed.

(** C10.  One run of [ReceivePacket] on a socket reads every pending
    datagram: it returns, the socket's queue is empty afterwards (the next
    [RecvFrom] returns null), one line with the time, the packet's size and
    the sender's address has been written per datagram, in arrival order,
    and no other socket has changed. *)
Theorem ReceivePacket_drains now socket w s :
  w_sockets w !! socket = Some s →
  ∃ w' s',
    ReceivePacket now socket w = Some w'
    ∧ w_sockets w' !! socket = Some s'
    ∧ sk_deliveryQueue s' = []
    ∧ RecvFrom s' = (None, s')
    ∧ w_cout w'
      = w_cout w ++ ((λ d, OutReceived now (GetSize d.1) (GetIpv4 d.2))
                     <$> sk_deliveryQueue s)
    ∧ ∀ other, other ≠ socket → w_sockets w' !! other = w_sockets w !! other.
Proof.
  intros Hs. exists (set_cout (w_cout w ++ (line_of now <$> sk_deliveryQueue s))
                       (set_sockets (<[socket := drained s]> (w_sockets w)) w)),
                    (drained s).
  split.
  { unfold ReceivePacket. rewrite Hs. simpl.
    rewrite ReceivePacket_loop_spec. reflexivity. }
  split.
  { simpl. apply list_lookup_insert_eq. by apply lookup_lt_Some in Hs. }
  split; [reflexivity|]. split; [reflexivity|]. split; [reflexivity|].
  intros other Hne. simpl. by apply list_lookup_insert_ne.
Qed.

Lemma ReceivePacket_drains_witness :
  let s := {| sk_node := 2%nat; sk_tid := UdpSocketFactory;
              sk_bound := Some {| GetIpv4 := Ipv4Address_GetAny; GetPort := port |};
              sk_recvCallback := Some CbReceivePacket;
              sk_deliveryQueue :=
                [ (Create_Packet 100, {| GetIpv4 := ip_10_1_1 1; GetPort := 49153 |});
                  (Create_Packet 100, {| GetIpv4 := ip_10_1_1 2; GetPort := 49153 |}) ] |} in
  let w := set_sockets [s] sample_world in
  w_sockets w !! 0%nat = Some s
  ∧ ∃ w' s',
      ReceivePacket 2000300000 0%nat w = Some w'
      ∧ w_sockets w' !! 0%nat = Some s'
      ∧ sk_deliveryQueue s' = []
      ∧ RecvFrom s' = (None, s')
      ∧ w_cout w'
        = w_cout w ++ ((λ d, OutReceived 2000300000 (GetSize d.1) (GetIpv4 d.2))
                       <$> sk_deliveryQueue s)
      ∧ ∀ other, other ≠ 0%nat → w_sockets w' !! other = w_sockets w !! other.
Proof.
  intros s w.
  split; [reflexivity|].
  exact (ReceivePacket_drains 2000300000 0%nat w s eq_refl).
Defined.

(** * Properties of the kernel of the specification *)

Module KernelFacts.
Import Kernel.

(** ** The order of dispatch *)

Lemma key_ltb_spec e1 e2 : key_ltb e1 e2 = true ↔ key_lt e1 e2.
Proof.
  unfold key_ltb, key_lt.
  rewrite orb_true_iff, andb_true_iff, Z.ltb_lt, Z.eqb_eq, Nat.ltb_lt. tauto.
Qed.

Lemma key_lt_trans e1 e2 e3 : key_lt e1 e2 → key_lt e2 e3 → key_lt e1 e3.
Proof. unfold key_lt. lia. Qed.

Lemma key_lt_total e1 e2 :
  sequence e1 ≠ sequence e2 → key_ltb e1 e2 = false → key_lt e2 e1.
Proof.
  intros Hne Hnlt.
  destruct (key_ltb e1 e2) eqn:E; [done|].
  assert (¬ key_lt e1 e2) as H by (rewrite <- key_ltb_spec; congruence).
  unfold key_lt in *. lia.
Qed.

Lemma elem_of_insert_event e l x : x ∈ insert_event e l ↔ x = e ∨ x ∈ l.
Proof.
  induction l as [|y l IH]; simpl.
  - rewrite list_elem_of_singleton, elem_of_nil. tauto.
  - destruct (key_ltb e y).
    + by rewrite elem_of_cons.
    + rewrite !elem_of_cons, IH. tauto.
Qed.

Lemma insert_event_perm e l : insert_event e l ≡ₚ e :: l.
Proof.
  induction l as [|y l IH]; simpl; [done|].
  destruct (key_ltb e y); [done|].
  rewrite IH. apply Permutation_swap.
Qed.

Lemma insert_event_sorted e l :
  StronglySorted key_lt l →
  Forall (λ x, sequence x ≠ sequence e) l →
  StronglySorted key_lt (insert_event e l).
Proof.
  induction 1 as [|y l Hl IH Hy]; intros Hfresh; simpl.
  - repeat constructor.
  - apply Forall_cons in Hfresh as [Hye Hfresh].
    destruct (key_ltb e y) eqn:E.
    + apply key_ltb_spec in E. constructor; [by constructor|].
      constructor; [done|].
      eapply Forall_impl; [exact Hy|]. intros x Hx. by eapply key_lt_trans.
    + constructor; [by apply IH|].
      apply Forall_forall. intros x [->|Hx]%elem_of_insert_event.
      * apply key_lt_total; [congruence | done].
      * by apply (proj1 (Forall_forall _ _) Hy).
Qed.

Lemma filter_none {A : Type} (P : A → Prop) `{∀ x, Decision (P x)} (l : list A) :
  Forall (λ x, ¬ P x) l → filter P l = [].
Proof.
  induction 1 as [|x l Hx _ IH]; [done|].
  by rewrite filter_cons_False.
Qed.

Lemma schedule_or_skip_spec q r :
  wf q → wf (schedule_or_skip q r) ∧ extends q (schedule_or_skip q r).
Proof.
  intros [Hs Hf]. unfold schedule_or_skip, schedule.
  destruct (Z.ltb_spec r.1 (now q)) as [Hlt|Hge].
  - split; [by split|]. unfold extends. split; [done|]. split; [lia|]. by left.
  - split; [split|]; simpl.
    + apply insert_event_sorted; [done|].
      eapply Forall_impl; [exact Hf|]. simpl. lia.
    + apply Forall_forall. intros x [->|Hx]%elem_of_insert_event; simpl; [lia|].
      apply (proj1 (Forall_forall _ _) Hf) in Hx. lia.
    + unfold extends. simpl. split; [done|]. split; [lia|].
      intros x [->|Hx]%elem_of_insert_event; [right; simpl; lia | by left].
Qed.

Lemma extends_trans q1 q2 q3 : extends q1 q2 → extends q2 q3 → extends q1 q3.
Proof.
  intros (Hn1 & Hs1 & Hp1) (Hn2 & Hs2 & Hp2). unfold extends.
  split; [congruence|]. split; [lia|].
  intros x Hx. destruct (Hp2 x Hx) as [Hin|[? ?]].
  - by apply Hp1.
  - right. lia.
Qed.

Lemma schedule_all_spec reqs :
  ∀ q, wf q → wf (schedule_all reqs q) ∧ extends q (schedule_all reqs q).
Proof.
  unfold schedule_all.
  induction reqs as [|r reqs IH]; intros q Hwf; simpl.
  - split; [done|]. unfold extends. split; [done|]. split; [lia|]. by left.
  - destruct (schedule_or_skip_spec q r Hwf) as [Hwf1 Hext1].
    destruct (IH _ Hwf1) as [Hwf2 Hext2].
    split; [done|]. by eapply extends_trans.
Qed.

Lemma key_lt_time e1 e2 : key_lt e1 e2 → scheduledTime e1 ≤ scheduledTime e2.
Proof. unfold key_lt. lia. Qed.

(** Whatever the actions do and however long the loop is let run, the
    events come out in strictly increasing key order and none is later than
    [stopTime]. *)
Lemma runUntil_sorted stopTime fuel :
  ∀ q, wf q →
  StronglySorted key_lt (runUntil fuel stopTime q).1
  ∧ Forall (λ e, scheduledTime e ≤ stopTime) (runUntil fuel stopTime q).1
  ∧ Forall (λ e, now q ≤ scheduledTime e
                 ∧ (e ∈ pending q ∨ (nextSequence q ≤ sequence e)%nat))
      (runUntil fuel stopTime q).1.
Proof.
  induction fuel as [|fuel IH]; intros q Hwf; simpl.
  { repeat split; constructor. }
  destruct Hwf as [Hs Hf].
  destruct (pending q) as [|e rest] eqn:Hp; simpl.
  { repeat split; constructor. }
  destruct (Z.leb_spec (scheduledTime e) stopTime) as [Hle|Hgt]; simpl.
  2: { repeat split; constructor. }
  apply StronglySorted_inv in Hs as [Hrest He].
  apply Forall_cons in Hf as [[Hnow Hseq] Hf].
  set (q1 := {| now := scheduledTime e; nextSequence := nextSequence q; pending := rest |}).
  assert (wf q1) as Hwf1.
  { split; simpl; [done|].
    apply Forall_forall. intros x Hx.
    pose proof (proj1 (Forall_forall _ _) He x Hx) as Hk.
    pose proof (proj1 (Forall_forall _ _) Hf x Hx) as [_ ?].
    split; [by apply key_lt_time | done]. }
  destruct (schedule_all_spec (run (action e) (scheduledTime e)) q1 Hwf1)
    as [Hwf2 (Hn2 & Hs2 & Hp2)].
  destruct (IH _ Hwf2) as (Hsorted & Hstop & Hfrom).
  set (log := (runUntil fuel stopTime
                 (schedule_all (run (action e) (scheduledTime e)) q1)).1) in *.
  assert (∀ x, x ∈ log →
            scheduledTime e ≤ scheduledTime x
            ∧ (x ∈ rest ∨ (nextSequence q ≤ sequence x)%nat)) as Hlog.
  { intros x Hx.
    destruct (proj1 (Forall_forall _ _) Hfrom x Hx) as [Ht Hor].
    rewrite Hn2 in Ht. simpl in Ht. split; [done|].
    destruct Hor as [Hin|Hnew].
    - destruct (Hp2 x Hin) as [?|[_ ?]]; [by left | by right].
    - right. simpl in Hs2. lia. }
  split; [|split].
  - constructor; [done|]. apply Forall_forall. intros x Hx.
    destruct (Hlog x Hx) as [Ht [Hin|Hnew]].
    + by apply (proj1 (Forall_forall _ _) He).
    + unfold key_lt. lia.
  - by constructor.
  - constructor.
    + split; [done|]. left. by left.
    + apply Forall_forall. intros x Hx.
      destruct (Hlog x Hx) as [Ht [Hin|Hnew]].
      * split; [lia|]. left. by right.
      * split; [lia|]. by right.
Qed.

(** With actions that schedule nothing, as many iterations as there are
    pending events end the loop: exactly the pending events up to
    [stopTime] have been dispatched, and none of them is left. *)
Lemma runUntil_inert stopTime :
  ∀ fuel q,
  StronglySorted key_lt (pending q) →
  Forall (λ e, inert (action e)) (pending q) →
  (length (pending q) ≤ fuel)%nat →
  (runUntil fuel stopTime q).1 = filter (λ e, scheduledTime e ≤ stopTime) (pending q)
  ∧ drained_until stopTime (runUntil fuel stopTime q).2.
Proof.
  induction fuel as [|fuel IH]; intros q Hs Hi Hlen; simpl.
  { destruct (pending q) eqn:Hp; [|simpl in Hlen; lia].
    unfold drained_until. rewrite Hp. by split. }
  unfold drained_until in *.
  destruct (pending q) as [|e rest] eqn:Hp; simpl.
  { rewrite Hp. by split. }
  apply StronglySorted_inv in Hs as [Hrest He].
  apply Forall_cons in Hi as [Hie Hi].
  destruct (Z.leb_spec (scheduledTime e) stopTime) as [Hle|Hgt]; simpl.
  - rewrite Hie. simpl. rewrite filter_cons_True by done.
    destruct (IH {| now := scheduledTime e; nextSequence := nextSequence q;
                    pending := rest |}) as [Hlog Hdr]; simpl; try done.
    { simpl in Hlen. lia. }
    rewrite Hlog. by split.
  - assert (Forall (λ x, stopTime < scheduledTime x) (e :: rest)) as Hall.
    { constructor; [done|]. eapply Forall_impl; [exact He|].
      intros x Hx. apply key_lt_time in Hx. lia. }
    rewrite Hp. split; [|done].
    symmetry. apply filter_none. eapply Forall_impl; [exact Hall|].
    simpl. lia.
Qed.

Lemma schedule_all_keeps reqs :
  ∀ q x, x ∈ pending q → x ∈ pending (schedule_all reqs q).
Proof.
  unfold schedule_all.
  induction reqs as [|r reqs IH]; intros q x Hx; simpl; [done|].
  apply IH. unfold schedule_or_skip, schedule.
  destruct (r.1 <? now q); [done|]. simpl.
  apply elem_of_insert_event. by right.
Qed.

(** When the loop stops with iterations to spare, it has dispatched every
    event that was pending for a time up to [stopTime], and none is left;
    this holds whatever the actions schedule. *)
Lemma runUntil_complete stopTime :
  ∀ fuel q, wf q →
  (length (runUntil fuel stopTime q).1 < fuel)%nat →
  drained_until stopTime (runUntil fuel stopTime q).2
  ∧ ∀ e, e ∈ pending q → scheduledTime e ≤ stopTime → e ∈ (runUntil fuel stopTime q).1.
Proof.
  induction fuel as [|fuel IH]; intros q Hwf Hlen; simpl in *; [lia|].
  unfold drained_until in *.
  destruct Hwf as [Hs Hf].
  destruct (pending q) as [|e0 rest] eqn:Hp; simpl in *.
  { rewrite Hp. split; [constructor|]. intros e He. by apply elem_of_nil in He. }
  apply StronglySorted_inv in Hs as [Hrest He0].
  apply Forall_cons in Hf as [[Hnow Hseq] Hf].
  destruct (Z.leb_spec (scheduledTime e0) stopTime) as [Hle|Hgt]; simpl in *.
  - set (q1 := {| now := scheduledTime e0; nextSequence := nextSequence q;
                  pending := rest |}) in *.
    assert (wf q1) as Hwf1.
    { split; simpl; [done|].
      apply Forall_forall. intros x Hx.
      pose proof (proj1 (Forall_forall _ _) He0 x Hx) as Hk.
      pose proof (proj1 (Forall_forall _ _) Hf x Hx) as [_ ?].
      split; [by apply key_lt_time | done]. }
    destruct (schedule_all_spec (run (action e0) (scheduledTime e0)) q1 Hwf1) as [Hwf2 _].
    destruct (IH _ Hwf2) as [Hdr Hall]; [lia|].
    split; [exact Hdr|].
    intros e [->|He]%elem_of_cons Ht; [by left|].
    right. apply Hall; [|done]. by apply schedule_all_keeps.
  - rewrite Hp.
    assert (Forall (λ x, stopTime < scheduledTime x) (e0 :: rest)) as Hall.
    { constructor; [done|]. eapply Forall_impl; [exact He0|].
      intros x Hx. apply key_lt_time in Hx. lia. }
    split; [exact Hall|].
    intros e He Ht. apply (proj1 (Forall_forall _ _) Hall) in He. lia.
Qed.

Lemma events_of_snoc reqs r :
  events_of (reqs ++ [r])
  = events_of reqs
    ++ [{| scheduledTime := r.1; sequence := length reqs; action := r.2 |}].
Proof.
  unfold events_of. rewrite imap_app. simpl. by rewrite Nat.add_0_r.
Qed.

(** Calls of [schedule] on the new queue with times that are not in the past
    all succeed; the queue then holds the events of the calls, the [i]-th
    one with sequence number [i]. *)
Lemma schedule_all_new reqs :
  Forall (λ r, 0 ≤ r.1) reqs →
  wf (schedule_all reqs new_queue)
  ∧ now (schedule_all reqs new_queue) = 0
  ∧ nextSequence (schedule_all reqs new_queue) = length reqs
  ∧ pending (schedule_all reqs new_queue) ≡ₚ events_of reqs.
Proof.
  induction reqs as [|r reqs IH] using rev_ind; intros Hvalid.
  - split; [|done]. split; constructor.
  - apply Forall_app in Hvalid as [Hvalid Hr].
    rewrite Forall_singleton in Hr.
    destruct (IH Hvalid) as (Hwf & Hnow & Hseq & Hperm).
    unfold schedule_all in *. rewrite foldl_app. simpl.
    set (q := foldl schedule_or_skip new_queue reqs) in *.
    destruct (schedule_or_skip_spec q r Hwf) as [Hwf' (Hn' & _ & _)].
    split; [done|]. split; [congruence|].
    unfold schedule_or_skip, schedule.
    destruct (Z.ltb_spec r.1 (now q)) as [Hlt|Hge]; [lia|]. simpl.
    split; [rewrite length_app; simpl; lia|].
    rewrite insert_event_perm, events_of_snoc, Hseq, Hperm.
    apply Permutation_cons_append.
Qed.

Lemma StronglySorted_lookup_lt {A : Type} (R : relation A) (l : list A) :
  StronglySorted R l →
  ∀ i j x y, (i < j)%nat → l !! i = Some x → l !! j = Some y → R x y.
Proof.
  induction 1 as [|a l Hl IH Ha]; intros i j x y Hij Hx Hy; [done|].
  destruct j as [|j]; [lia|]. simpl in Hy.
  destruct i as [|i]; simpl in Hx.
  - injection Hx as <-.
    apply (proj1 (Forall_forall _ _) Ha). by eapply list_elem_of_lookup_2.
  - apply (IH i j); [lia | done | done].
Qed.

Lemma key_lt_asym e1 e2 : key_lt e1 e2 → key_lt e2 e1 → False.
Proof. unfold key_lt. lia. Qed.

(** C3 (on the EventQueue as section 4.1 of the specification describes
    it).  Take any sequence of events scheduled on a new queue.  However
    long [runUntil] is let run and whatever the actions schedule meanwhile,
    the events it dispatches are due at [stopTime] at the latest and come
    out in non-decreasing time order, those of equal time in the order of
    their sequence numbers, which is the order of the [schedule] calls.
    When the loop stops with iterations to spare, every scheduled event due
    up to [stopTime] has been dispatched and none is left pending.  When
    the actions schedule nothing, an iteration per event is enough for
    that, and the events dispatched are exactly the scheduled events due up
    to [stopTime]; this dispatch sequence is the only arrangement of those
    events in key order, so the same input always gives the same
    sequence. *)
Theorem runUntil_dispatch_order (reqs : list (Z * Action)) (stopTime : Z) (fuel : nat) :
  Forall (λ r, 0 ≤ r.1) reqs →
  let result := runUntil fuel stopTime (schedule_all reqs new_queue) in
  StronglySorted key_lt result.1
  ∧ Forall (λ e, scheduledTime e ≤ stopTime) result.1
  ∧ (∀ i j e1 e2,
       result.1 !! i = Some e1 → result.1 !! j = Some e2 → (i < j)%nat →
       scheduledTime e1 ≤ scheduledTime e2
       ∧ (scheduledTime e1 = scheduledTime e2 → (sequence e1 < sequence e2)%nat))
  ∧ ((length result.1 < fuel)%nat →
       drained_until stopTime result.2
       ∧ ∀ e, e ∈ events_of reqs → scheduledTime e ≤ stopTime → e ∈ result.1)
  ∧ (Forall (λ r, inert r.2) reqs → (length reqs ≤ fuel)%nat →
       result.1 ≡ₚ filter (λ e, scheduledTime e ≤ stopTime) (events_of reqs)
       ∧ drained_until stopTime result.2
       ∧ ∀ l, l ≡ₚ filter (λ e, scheduledTime e ≤ stopTime) (events_of reqs) →
              StronglySorted key_lt l → l = result.1).
Proof.
  intros Hvalid result.
  destruct (schedule_all_new reqs Hvalid) as (Hwf & Hnow & Hseq & Hperm).
  destruct (runUntil_sorted stopTime fuel _ Hwf) as (Hsorted & Hstop & _).
  fold result in Hsorted, Hstop.
  split; [exact Hsorted|]. split; [exact Hstop|]. split.
  { intros i j e1 e2 H1 H2 Hij.
    pose proof (StronglySorted_lookup_lt _ _ Hsorted i j e1 e2 Hij H1 H2) as Hk.
    unfold key_lt in Hk. lia. }
  split.
  { intros Hspare.
    destruct (runUntil_complete stopTime fuel _ Hwf Hspare) as [Hdr Hall].
    split; [exact Hdr|]. intros e He Ht. apply Hall; [|done]. by rewrite Hperm. }
  intros Hinert Hfuel.
  assert (Forall (λ e, inert (action e)) (pending (schedule_all reqs new_queue))) as Hin.
  { rewrite Hperm. apply Forall_forall. intros e He.
    apply elem_of_lookup_imap_1 in He as (i & r & -> & Hr). simpl.
    apply (proj1 (Forall_forall _ _) Hinert). by eapply list_elem_of_lookup_2. }
  destruct (runUntil_inert stopTime fuel (schedule_all reqs new_queue)) as [Hlog Hdr].
  { by destruct Hwf. }
  { exact Hin. }
  { rewrite Hperm. unfold events_of. by rewrite length_imap. }
  fold result in Hlog, Hdr.
  assert (result.1 ≡ₚ filter (λ e, scheduledTime e ≤ stopTime) (events_of reqs)) as Hp.
  { rewrite Hlog. by rewrite Hperm. }
  split; [exact Hp|]. split; [exact Hdr|].
  intros l Hl Hls.
  apply (StronglySorted_unique_strong key_lt); [|done|done|by rewrite Hl, Hp].
  intros x1 x2 _ _ H1 H2. destruct (key_lt_asym _ _ H1 H2).
Qed.

Lemma runUntil_dispatch_order_witness :
  let tick := Act (λ _, []) in
  let reqs := [(5, tick); (3, tick); (5, tick); (9, tick)] in
  Forall (λ r, 0 ≤ r.1) reqs
  ∧ (let result := runUntil 4 5 (schedule_all reqs new_queue) in
     StronglySorted key_lt result.1
     ∧ Forall (λ e, scheduledTime e ≤ 5) result.1
     ∧ (∀ i j e1 e2,
          result.1 !! i = Some e1 → result.1 !! j = Some e2 → (i < j)%nat →
          scheduledTime e1 ≤ scheduledTime e2
          ∧ (scheduledTime e1 = scheduledTime e2 → (sequence e1 < sequence e2)%nat))
     ∧ ((length result.1 < 4)%nat →
          drained_until 5 result.2
          ∧ ∀ e, e ∈ events_of reqs → scheduledTime e ≤ 5 → e ∈ result.1)
     ∧ (Forall (λ r, inert r.2) reqs → (length reqs ≤ 4)%nat →
          result.1 ≡ₚ filter (λ e, scheduledTime e ≤ 5) (events_of reqs)
          ∧ drained_until 5 result.2
          ∧ ∀ l, l ≡ₚ filter (λ e, scheduledTime e ≤ 5) (events_of reqs) →
                 StronglySorted key_lt l → l = result.1)).
Proof.
  intros tick reqs.
  assert (Forall (λ r, 0 ≤ r.1) reqs) as H by (repeat constructor; simpl; lia).
  split; [exact H|].
  exact (runUntil_dispatch_order reqs 5 4 H).
Defined.

(** A run written out: the event due at 3, then the two due at 5 in the
    order of their calls; the one due at 9 stays. *)
Example runUntil_example :
  let tick := Act (λ _, []) in
  (λ e, (scheduledTime e, sequence e))
    <$> (runUntil 4 5 (schedule_all [(5, tick); (3, tick); (5, tick); (9, tick)] new_queue)).1
  = [(3, 1%nat); (5, 0%nat); (5, 2%nat)].
Proof. reflexivity. Qed.

(** An action that schedules an event for the time it runs at: the new event
    is dispatched in the same [runUntil], after the events already pending
    for that time. *)
Example runUntil_reentrant :
  let tick := Act (λ _, []) in
  let again := Act (λ now, [(now, tick)]) in
  (λ e, (scheduledTime e, sequence e))
    <$> (runUntil 10 5 (schedule_all [(5, again); (5, tick)] new_queue)).1
  = [(5, 0%nat); (5, 1%nat); (5, 2%nat)].
Proof. reflexivity. Qed.

(** C6 (on the NodeQueue as section 4.3 of the specification describes it).
    On a queue whose pending length equals its capacity, [enqueue] fails
    with [QueueFullError], leaves the pending sequence as it was and adds
    one to [droppedCount]; any number of such calls in a row each fail and
    add one each.  On a queue whose pending length is below its capacity,
    [enqueue] returns [true] and the packet is the new last element. *)
Theorem enqueue_full_or_append (q : NodeQueue.State) (p : Packet) :
  (Z.of_nat (length (NodeQueue.pending q)) = NodeQueue.capacity q →
     (NodeQueue.enqueue p q).1 = inl NodeQueue.QueueFullError
     ∧ NodeQueue.pending (NodeQueue.enqueue p q).2 = NodeQueue.pending q
     ∧ NodeQueue.droppedCount (NodeQueue.enqueue p q).2 = NodeQueue.droppedCount q + 1
     ∧ NodeQueue.capacity (NodeQueue.enqueue p q).2 = NodeQueue.capacity q
     ∧ ∀ ps,
         Forall (λ p', (NodeQueue.enqueue p' q).1 = inl NodeQueue.QueueFullError) ps
         ∧ NodeQueue.pending (NodeQueue.enqueue_all ps q) = NodeQueue.pending q
         ∧ NodeQueue.droppedCount (NodeQueue.enqueue_all ps q)
           = NodeQueue.droppedCount q + Z.of_nat (length ps))
  ∧ (Z.of_nat (length (NodeQueue.pending q)) < NodeQueue.capacity q →
     (NodeQueue.enqueue p q).1 = inr true
     ∧ NodeQueue.pending (NodeQueue.enqueue p q).2 = NodeQueue.pending q ++ [p]
     ∧ NodeQueue.droppedCount (NodeQueue.enqueue p q).2 = NodeQueue.droppedCount q).
Proof.
  split.
  - intros Hfull.
    assert (∀ q' p', Z.of_nat (length (NodeQueue.pending q')) = NodeQueue.capacity q' →
              NodeQueue.enqueue p' q'
              = (inl NodeQueue.QueueFullError,
                 {| NodeQueue.nodeId := NodeQueue.nodeId q';
                    NodeQueue.pending := NodeQueue.pending q';
                    NodeQueue.capacity := NodeQueue.capacity q';
                    NodeQueue.droppedCount := NodeQueue.droppedCount q' + 1 |})) as Hstep.
    { intros q' p' H. unfold NodeQueue.enqueue.
      destruct (Z.ltb_spec (Z.of_nat (length (NodeQueue.pending q'))) (NodeQueue.capacity q'));
        [lia | done]. }
    rewrite (Hstep q p Hfull). simpl. repeat (split; [reflexivity|]).
    intros ps. split.
    { apply Forall_forall. intros p' _. by rewrite (Hstep q p' Hfull). }
    unfold NodeQueue.enqueue_all.
    revert q Hfull. induction ps as [|p' ps IH]; intros q Hfull; simpl.
    { split; [done | lia]. }
    rewrite (Hstep q p' Hfull). simpl.
    match goal with |- context [foldl _ ?q0 ps] => destruct (IH q0) as [Hp Hd] end.
    { exact Hfull. }
    rewrite Hp, Hd. simpl. split; [done | lia].
  - intros Hroom. unfold NodeQueue.enqueue.
    destruct (Z.ltb_spec (Z.of_nat (length (NodeQueue.pending q))) (NodeQueue.capacity q));
      [done | lia].
Qed.

Lemma enqueue_full_or_append_witness :
  let p := {| id := 0; sizeBytes := 100; sourceNodeId := 0; destNodeId := 1;
              enqueueTime := 1 # 1; deliverTime := None |} in
  let room := {| NodeQueue.nodeId := 0; NodeQueue.pending := [];
                 NodeQueue.capacity := 1; NodeQueue.droppedCount := 0 |} in
  let full := {| NodeQueue.nodeId := 0; NodeQueue.pending := [p];
                 NodeQueue.capacity := 1; NodeQueue.droppedCount := 0 |} in
  (Z.of_nat (length (NodeQueue.pending full)) = NodeQueue.capacity full
   ∧ (NodeQueue.enqueue p full).1 = inl NodeQueue.QueueFullError
   ∧ NodeQueue.pending (NodeQueue.enqueue p full).2 = [p]
   ∧ NodeQueue.droppedCount (NodeQueue.enqueue p full).2 = 0 + 1)
  ∧ (Z.of_nat (length (NodeQueue.pending room)) < NodeQueue.capacity room
     ∧ (NodeQueue.enqueue p room).1 = inr true
     ∧ NodeQueue.pending (NodeQueue.enqueue p room).2 = [] ++ [p]).
Proof.
  intros p room full.
  assert (Z.of_nat (length (NodeQueue.pending full)) = NodeQueue.capacity full)
    as Hfull by reflexivity.
  assert (Z.of_nat (length (NodeQueue.pending room)) < NodeQueue.capacity room)
    as Hroom by (simpl; lia).
  destruct (proj1 (enqueue_full_or_append full p) Hfull) as (H1 & H2 & H3 & _).
  destruct (proj2 (enqueue_full_or_append room p) Hroom) as (H4 & H5 & _).
  split; [split; [exact Hfull|]; split; [exact H1|]; split; [exact H2 | exact H3]|].
  split; [exact Hroom|]. split; [exact H4 | exact H5].
Defined.

(** The scenario of section 8 with [queueCapacity = 0]: the first [enqueue]
    fails and [droppedCount] is 1. *)
Example enqueue_capacity_zero p :
  (λ q, (NodeQueue.enqueue p q).1) <$> NodeQueue.create 0 0
  = Some (inl NodeQueue.QueueFullError)
  ∧ (λ q, NodeQueue.droppedCount (NodeQueue.enqueue p q).2) <$> NodeQueue.create 0 0
    = Some 1.
Proof. split; reflexivity. Qed.

(** C1 (on the Medium as sections 4.2 and 6 of the specification describe
    it).  For every packet size and every positive [bitRate],
    [transmissionTime] is [sizeBytes * 8 / bitRate].  With 6,000,000 bit/s
    and no propagation delay, a packet of the size [SendPacket] creates (100
    bytes), handed to a free medium at the script's first send time (1 s),
    is a success with arrival time [1 + 100 * 8 / 6000000] seconds, which is
    7501/7500, between 1.000133 and 1.000134. *)
Theorem transmission_time_and_arrival :
  (∀ cfg sizeBytes,
     (0 < Medium.bitRate cfg)%Q →
     (Medium.transmissionTime cfg sizeBytes == inject_Z sizeBytes * 8 / Medium.bitRate cfg)%Q
     ∧ (Medium.transmissionTime cfg sizeBytes * Medium.bitRate cfg == inject_Z sizeBytes * 8)%Q)
  ∧ ∀ st nodeId packet,
      (Medium.busyUntil st <= inject_Z sendStart)%Q →
      sizeBytes packet = GetSize (Create_Packet 100) →
      ∃ arrivalTime,
        Medium.attemptSend scenario st nodeId packet (inject_Z sendStart)
        = (Medium.Success arrivalTime,
           {| Medium.busyUntil :=
                (inject_Z sendStart + Medium.transmissionTime scenario 100)%Q |})
        ∧ (arrivalTime == 1 + inject_Z (100 * 8) / (6000000 # 1))%Q
        ∧ (arrivalTime == 7501 # 7500)%Q
        ∧ (1000133 # 1000000 <= arrivalTime)%Q
        ∧ (arrivalTime < 1000134 # 1000000)%Q.
Proof.
  split.
  - intros cfg size Hpos. unfold Medium.transmissionTime.
    assert (¬ (Medium.bitRate cfg == 0)%Q) as Hne.
    { intros H. rewrite H in Hpos. by apply Qlt_irrefl in Hpos. }
    split.
    + rewrite inject_Z_mult. reflexivity.
    + rewrite inject_Z_mult. field. exact Hne.
  - intros st nodeId packet Hfree Hsize. simpl in Hsize.
    unfold Medium.attemptSend.
    apply Qle_bool_iff in Hfree. rewrite Hfree, Hsize.
    eexists. split; [reflexivity|].
    split; [reflexivity|]. split; [reflexivity|].
    split; [discriminate | reflexivity].
Qed.

Lemma transmission_time_and_arrival_witness :
  let st := {| Medium.busyUntil := 0 |} in
  let packet := {| id := 0; sizeBytes := 100; sourceNodeId := 0; destNodeId := 1;
                   enqueueTime := 1 # 1; deliverTime := None |} in
  (0 < Medium.bitRate scenario)%Q
  ∧ (Medium.busyUntil st <= inject_Z sendStart)%Q
  ∧ sizeBytes packet = GetSize (Create_Packet 100)
  ∧ (Medium.transmissionTime scenario 100 * Medium.bitRate scenario == inject_Z 100 * 8)%Q
  ∧ ∃ arrivalTime,
      (Medium.attemptSend scenario st 0%nat packet (inject_Z sendStart)).1
      = Medium.Success arrivalTime
      ∧ (arrivalTime == 7501 # 7500)%Q.
Proof.
  intros st packet.
  assert (0 < Medium.bitRate scenario)%Q as Hpos by reflexivity.
  assert (Medium.busyUntil st <= inject_Z sendStart)%Q as Hfree by discriminate.
  assert (sizeBytes packet = GetSize (Create_Packet 100)) as Hsize by reflexivity.
  destruct transmission_time_and_arrival as [Htx Hsend].
  destruct (Htx scenario 100 Hpos) as [_ Hmul].
  destruct (Hsend st 0%nat packet Hfree Hsize) as (t & Hout & _ & Ht & _).
  split; [exact Hpos|]. split; [exact Hfree|]. split; [exact Hsize|].
  split; [exact Hmul|].
  exists t. split; [by rewrite Hout | exact Ht].
Defined.

(** A second attempt while the medium is busy is deferred to [busyUntil]. *)
Example attemptSend_deferred :
  let packet := {| id := 0; sizeBytes := 100; sourceNodeId := 0; destNodeId := 1;
                   enqueueTime := 1 # 1; deliverTime := None |} in
  let st1 := (Medium.attemptSend scenario {| Medium.busyUntil := 0 |} 0%nat packet 1).2 in
  (Medium.attemptSend scenario st1 1%nat packet 1).1 = Medium.Deferred (Medium.busyUntil st1).
Proof. reflexivity. Qed.

End KernelFacts.

(** * Further code of the script *)

(** ** Lines 111-119: the positions *)

(** [ns3::Vector]: three [double]s.  Every coordinate the script builds is
    [5.0 + 20.0 * i] with [i] a [uint32_t], or a literal; all are integers
    below 2^53, so the [double] arithmetic is exact and is carried out in
    [Z] (metres). *)
Record Vector := { vx : Z; vy : Z; vz : Z }.

(** [posAlloc->Add(v)] appends to the allocator's list. *)
Definition position_body (i : Z) (posAlloc : list Vector) : option (list Vector) :=
  Some (posAlloc ++ [{| vx := 5 + 20 * i; vy := 0; vz := 0 |}]).

Definition rsu_position : Vector := {| vx := 25; vy := 50; vz := 0 |}.

(** The list the allocator holds when it is handed to [mobility]. *)
Definition positions (cfg : Config) : option (list Vector) :=
  posAlloc ← for_uint32 (nVehicles cfg) position_body [];
  Some (posAlloc ++ [rsu_position]).

(** The square of the distance between two points. *)
Definition dist2 (p q : Vector) : Z :=
  (vx p - vx q) ^ 2 + (vy p - vy q) ^ 2 + (vz p - vz q) ^ 2.

Global Instance Vector_eq_dec : EqDecision Vector.
Proof. solve_decision. Defined.

(** The positions of the vehicles, in the order of the loop. *)
Definition vehicle_positions (n : nat) : list Vector :=
  (λ k, {| vx := 5 + 20 * Z.of_nat k; vy := 0; vz := 0 |}) <$> seq 0 n.

Lemma positions_spec cfg :
  0 ≤ nVehicles cfg →
  positions cfg = Some (vehicle_positions (Z.to_nat (nVehicles cfg)) ++ [rsu_position]).
Proof.
  intros Hn. unfold positions.
  destruct (for_uint32_inv
    (λ i l, l = vehicle_positions (Z.to_nat i))
    (nVehicles cfg) position_body []) as (l & -> & ->); [done | done | | done].
  intros i l Hi ->. eexists. split; [reflexivity|].
  replace (Z.to_nat (i + 1)) with (S (Z.to_nat i)) by lia.
  unfold vehicle_positions. rewrite seq_S, fmap_app. simpl.
  by rewrite Z2Nat.id by lia.
Qed.

Lemma vehicle_positions_length n : length (vehicle_positions n) = n.
Proof. unfold vehicle_positions. by rewrite length_fmap, length_seq. Qed.

Lemma vehicle_positions_lookup n i :
  0 ≤ i < Z.of_nat n →
  (vehicle_positions n ++ [rsu_position]) !! Z.to_nat i
  = Some {| vx := 5 + 20 * i; vy := 0; vz := 0 |}.
Proof.
  intros Hi. rewrite lookup_app_l by (rewrite vehicle_positions_length; lia).
  unfold vehicle_positions. rewrite list_lookup_fmap, lookup_seq_lt by lia.
  simpl. by rewrite Z2Nat.id by lia.
Qed.

(** X1.  The allocator receives one position per node of [allNodes]:
    [nVehicles + 1] of them, vehicle [i] at (5 + 20 i, 0, 0) and the RSU
    last, at (25, 50, 0); no two of them are the same point. *)
Theorem positions_distinct cfg :
  0 ≤ nVehicles cfg →
  ∃ l, positions cfg = Some l
       ∧ Z.of_nat (length l) = nVehicles cfg + 1
       ∧ (∀ i, 0 ≤ i < nVehicles cfg →
            l !! Z.to_nat i = Some {| vx := 5 + 20 * i; vy := 0; vz := 0 |})
       ∧ l !! Z.to_nat (nVehicles cfg) = Some {| vx := 25; vy := 50; vz := 0 |}
       ∧ NoDup l.
Proof.
  intros Hn. eexists. split; [by apply positions_spec|].
  set (n := Z.to_nat (nVehicles cfg)).
  pose proof (vehicle_positions_length n) as Hlen.
  split; [rewrite length_app, Hlen; simpl; lia|].
  split.
  { intros i Hi. apply vehicle_positions_lookup. lia. }
  split.
  { rewrite lookup_app_r by lia. by rewrite Hlen, Nat.sub_diag. }
  apply NoDup_app. split; [|split].
  - unfold vehicle_positions. apply NoDup_fmap_2; [|apply NoDup_seq].
    intros a b [= H]. lia.
  - intros p (k & -> & _)%list_elem_of_fmap [=]%list_elem_of_singleton.
  - apply NoDup_singleton.
Qed.

Lemma positions_distinct_witness :
  0 ≤ nVehicles defaults
  ∧ ∃ l, positions defaults = Some l
         ∧ Z.of_nat (length l) = nVehicles defaults + 1
         ∧ (∀ i, 0 ≤ i < nVehicles defaults →
              l !! Z.to_nat i = Some {| vx := 5 + 20 * i; vy := 0; vz := 0 |})
         ∧ l !! Z.to_nat (nVehicles defaults) = Some {| vx := 25; vy := 50; vz := 0 |}
         ∧ NoDup l.
Proof.
  assert (0 ≤ nVehicles defaults) as H by (simpl; lia).
  split; [exact H | exact (positions_distinct defaults H)].
Defined.

(** X2.  Every vehicle stands at least 50 m from the RSU: the square of the
    distance of vehicle [i] is 400 (i - 1)^2 + 2500, so the vehicle of index
    1, straight below the RSU, is the only one at exactly 50 m. *)
Theorem vehicles_distance_to_rsu cfg l i p :
  positions cfg = Some l →
  0 ≤ i < nVehicles cfg →
  l !! Z.to_nat i = Some p →
  dist2 p rsu_position = 400 * (i - 1) ^ 2 + 2500
  ∧ 50 ^ 2 ≤ dist2 p rsu_position
  ∧ (dist2 p rsu_position = 50 ^ 2 ↔ i = 1).
Proof.
  intros Hpos Hi Hp.
  rewrite positions_spec in Hpos by lia. injection Hpos as <-.
  rewrite vehicle_positions_lookup in Hp by lia. injection Hp as <-.
  unfold dist2, rsu_position. simpl.
  split; [lia|]. split; [nia|]. split; [nia | intros ->; reflexivity].
Qed.

(** The positions with the default options, and the vehicle below the RSU. *)
Definition default_positions : list Vector :=
  [ {| vx := 5; vy := 0; vz := 0 |}; {| vx := 25; vy := 0; vz := 0 |};
    rsu_position ].
Definition vehicle_below_rsu : Vector := {| vx := 25; vy := 0; vz := 0 |}.

Lemma vehicles_distance_to_rsu_witness :
  positions defaults = Some default_positions
  ∧ 0 ≤ 1 < nVehicles defaults
  ∧ default_positions !! Z.to_nat 1 = Some vehicle_below_rsu
  ∧ dist2 vehicle_below_rsu rsu_position = 400 * (1 - 1) ^ 2 + 2500
  ∧ 50 ^ 2 ≤ dist2 vehicle_below_rsu rsu_position
  ∧ (dist2 vehicle_below_rsu rsu_position = 50 ^ 2 ↔ 1 = 1).
Proof.
  pose (l := default_positions). pose (p := vehicle_below_rsu).
  assert (positions defaults = Some l) as H1 by reflexivity.
  assert (0 ≤ 1 < nVehicles defaults) as H2 by (simpl; lia).
  assert (l !! Z.to_nat 1 = Some p) as H3 by reflexivity.
  split; [exact H1|]. split; [exact H2|]. split; [exact H3|].
  exact (vehicles_distance_to_rsu defaults l 1 p H1 H2 H3).
Defined.

(** ** More on the receive callback *)

Lemma world_sockets_cout_eta w :
  set_cout (w_cout w) (set_sockets (w_sockets w) w) = w.
Proof. by destruct w. Qed.

Lemma drained_empty s : sk_deliveryQueue s = [] → drained s = s.
Proof. destruct s; simpl; by intros ->. Qed.

Lemma ReceivePacket_unfold now socket w s :
  w_sockets w !! socket = Some s →
  ReceivePacket now socket w
  = Some (set_cout (w_cout w ++ (line_of now <$> sk_deliveryQueue s))
            (set_sockets (<[socket := drained s]> (w_sockets w)) w)).
Proof.
  intros Hs. unfold ReceivePacket. rewrite Hs. simpl.
  by rewrite ReceivePacket_loop_spec.
Qed.

Lemma ReceivePacket_empty_noop now socket w s :
  w_sockets w !! socket = Some s → sk_deliveryQueue s = [] →
  ReceivePacket now socket w = Some w.
Proof.
  intros Hs Hq. rewrite (ReceivePacket_unfold _ _ _ s Hs), Hq. simpl.
  rewrite app_nil_r, (drained_empty s Hq), list_insert_id by done.
  by rewrite world_sockets_cout_eta.
Qed.

(** X3.  With nothing pending on the socket, [ReceivePacket] returns at
    once: nothing is written and the world is the one it started from. *)
Theorem ReceivePacket_nothing_pending now socket w s :
  w_sockets w !! socket = Some s →
  sk_deliveryQueue s = [] →
  ReceivePacket now socket w = Some w.
Proof. apply ReceivePacket_empty_noop. Qed.

Lemma ReceivePacket_nothing_pending_witness :
  let s := {| sk_node := 2%nat; sk_tid := UdpSocketFactory;
              sk_bound := Some {| GetIpv4 := Ipv4Address_GetAny; GetPort := port |};
              sk_recvCallback := Some CbReceivePacket;
              sk_deliveryQueue := [] |} in
  let w := set_sockets [s] sample_world in
  w_sockets w !! 0%nat = Some s
  ∧ sk_deliveryQueue s = []
  ∧ ReceivePacket 7 0%nat w = Some w.
Proof.
  intros s w. split; [reflexivity|]. split; [reflexivity|].
  exact (ReceivePacket_nothing_pending 7 0%nat w s eq_refl eq_refl).
Defined.


(** X5.  A second run of [ReceivePacket] on the same socket, with no
    arrival in between, finds nothing to read and changes nothing, whatever
    the time is by then. *)
Theorem ReceivePacket_twice now now' socket w w1 :
  ReceivePacket now socket w = Some w1 →
  ReceivePacket now' socket w1 = Some w1.
Proof.
  intros H1.
  destruct (w_sockets w !! socket) as [s|] eqn:Hs.
  2: { unfold ReceivePacket in H1. by rewrite Hs in H1. }
  rewrite (ReceivePacket_unfold _ _ _ s Hs) in H1. injection H1 as <-.
  apply (ReceivePacket_empty_noop _ _ _ (drained s)); [|done].
  simpl. apply list_lookup_insert_eq. by apply lookup_lt_Some in Hs.
Qed.

Lemma ReceivePacket_twice_witness :
  let s := {| sk_node := 2%nat; sk_tid := UdpSocketFactory;
              sk_bound := Some {| GetIpv4 := Ipv4Address_GetAny; GetPort := port |};
              sk_recvCallback := Some CbReceivePacket;
              sk_deliveryQueue :=
                [ (Create_Packet 100, {| GetIpv4 := ip_10_1_1 1; GetPort := 49153 |}) ] |} in
  let w := set_sockets [s] sample_world in
  let w1 := set_cout [OutReceived 5 100 (ip_10_1_1 1)]
              (set_sockets [drained s] sample_world) in
  ReceivePacket 5 0%nat w = Some w1
  ∧ ReceivePacket 9 0%nat w1 = Some w1.
Proof.
  intros s w w1.
  assert (ReceivePacket 5 0%nat w = Some w1) as H by reflexivity.
  split; [exact H | exact (ReceivePacket_twice 5 9 0%nat w w1 H)].
Defined.


(** ** The command line *)

(** A configuration with other values for the three options that [main]
    parses and never reads: [enableNetAnim], [enableQueueTraces] and
    [netAnimFile]. *)
Definition with_unread_options (netAnim queueTraces : bool) (file : string)
    (cfg : Config) : Config :=
  {| enableFlowMonitor := enableFlowMonitor cfg;
     enablePcap := enablePcap cfg;
     enableNetAnim := netAnim;
     enableQueueTraces := queueTraces;
     netAnimFile := file;
     nVehicles := nVehicles cfg;
     simTime := simTime cfg |}.

(** X6.  The options [enableNetAnim], [enableQueueTraces] and
    [netAnimFile] have no effect: with any values for them [main] builds
    the same world, writes the same output, makes the same library calls
    and places the nodes at the same positions. *)
Theorem unread_options_have_no_effect netAnim queueTraces file cfg cs w :
  main (with_unread_options netAnim queueTraces file cfg) cs w = main cfg cs w
  ∧ setup (with_unread_options netAnim queueTraces file cfg) cs w = setup cfg cs w
  ∧ positions (with_unread_options netAnim queueTraces file cfg) = positions cfg.
Proof. repeat split. Qed.

(** ** The library calls of lines 236-259 *)

Definition is_run_control (c : ApiCall) : bool :=
  match c with
  | CallSimulatorStop _ | CallSimulatorRun | CallSimulatorDestroy => true
  | _ => false
  end.

Ltac flag_cases cfg :=
  unfold main_calls, setup_calls, flowmon_file;
  destruct (enableFlowMonitor cfg), (enablePcap cfg); simpl.

(** X7.  PCAP capture is switched on exactly when [enablePcap] is set, and
    then for all devices, with the prefix "v2x-sim-final" and in promiscuous
    mode.  The ASCII trace does not depend on any option: [main] always
    creates "v2x-sim-final.tr", and no other stream, and always enables the
    ASCII trace. *)
Theorem tracing_calls cfg cs w :
  helpers_ok cfg cs w →
  ∃ wF calls,
    main cfg cs w = Some wF
    ∧ w_calls wF = w_calls w ++ calls
    ∧ (∀ prefix promiscuous,
         CallEnablePcapAll prefix promiscuous ∈ calls
         ↔ enablePcap cfg = true ∧ prefix = "v2x-sim-final"%string ∧ promiscuous = true)
    ∧ (∀ name, CallCreateFileStream name ∈ calls ↔ name = "v2x-sim-final.tr"%string)
    ∧ CallEnableAsciiAll ∈ calls.
Proof.
  intros Hok.
  destruct (main_calls_spec cfg cs w Hok) as (wF & Hmain & Hcalls).
  exists wF, (main_calls cfg). split; [exact Hmain|]. split; [exact Hcalls|].
  flag_cases cfg.
  all: split; [intros prefix promiscuous; split;
                 [ intros H; repeat (apply elem_of_cons in H as [H|H];
                                     [try discriminate H; try (injection H as -> ->; done)|]);
                   by apply elem_of_nil in H
                 | intros (He & -> & ->); try discriminate He; in_list ]|].
  all: split; [intros name; split;
                 [ intros H; repeat (apply elem_of_cons in H as [H|H];
                                     [try discriminate H; try (injection H as ->; done)|]);
                   by apply elem_of_nil in H
                 | intros ->; in_list ]|].
  all: in_list.
Qed.

Lemma tracing_calls_witness :
  helpers_ok defaults sample_cs sample_world
  ∧ ∃ wF calls,
      main defaults sample_cs sample_world = Some wF
      ∧ w_calls wF = w_calls sample_world ++ calls
      ∧ (∀ prefix promiscuous,
           CallEnablePcapAll prefix promiscuous ∈ calls
           ↔ enablePcap defaults = true ∧ prefix = "v2x-sim-final"%string
             ∧ promiscuous = true)
      ∧ (∀ name, CallCreateFileStream name ∈ calls ↔ name = "v2x-sim-final.tr"%string)
      ∧ CallEnableAsciiAll ∈ calls.
Proof.
  split; [exact sample_helpers_ok|].
  exact (tracing_calls defaults sample_cs sample_world sample_helpers_ok).
Defined.

(** X8.  Whatever the options, [main] stops the simulator at [simTime],
    runs it and destroys it, each exactly once: [Stop] comes right before
    [Run], and [Destroy] is the last call [main] makes. *)
Theorem run_is_bracketed cfg cs w :
  helpers_ok cfg cs w →
  ∃ wF pre post,
    main cfg cs w = Some wF
    ∧ w_calls wF
      = w_calls w ++ pre ++ [CallSimulatorStop (simTime cfg); CallSimulatorRun]
        ++ post ++ [CallSimulatorDestroy]
    ∧ Forall (λ c, is_run_control c = false) pre
    ∧ Forall (λ c, is_run_control c = false) post.
Proof.
  intros Hok.
  destruct (main_calls_spec cfg cs w Hok) as (wF & Hmain & Hcalls).
  exists wF. rewrite Hcalls. revert Hmain. flag_cases cfg; intros Hmain.
  - exists [CallEnablePcapAll "v2x-sim-final" true;
            CallCreateFileStream "v2x-sim-final.tr"; CallEnableAsciiAll;
            CallFlowMonitorInstallAll],
           [CallCheckForLostPackets;
            CallSerializeToXmlFile "v2x-sim-final-flowmon.xml" true true].
    split; [done|]. split; [reflexivity|]. split; repeat constructor.
  - exists [CallCreateFileStream "v2x-sim-final.tr"; CallEnableAsciiAll;
            CallFlowMonitorInstallAll],
           [CallCheckForLostPackets;
            CallSerializeToXmlFile "v2x-sim-final-flowmon.xml" true true].
    split; [done|]. split; [reflexivity|]. split; repeat constructor.
  - exists [CallEnablePcapAll "v2x-sim-final" true;
            CallCreateFileStream "v2x-sim-final.tr"; CallEnableAsciiAll], [].
    split; [done|]. split; [reflexivity|]. split; repeat constructor.
  - exists [CallCreateFileStream "v2x-sim-final.tr"; CallEnableAsciiAll], [].
    split; [done|]. split; [reflexivity|]. split; repeat constructor.
Qed.

Lemma run_is_bracketed_witness :
  helpers_ok defaults sample_cs sample_world
  ∧ ∃ wF pre post,
      main defaults sample_cs sample_world = Some wF
      ∧ w_calls wF
        = w_calls sample_world ++ pre
          ++ [CallSimulatorStop (simTime defaults); CallSimulatorRun]
          ++ post ++ [CallSimulatorDestroy]
      ∧ Forall (λ c, is_run_control c = false) pre
      ∧ Forall (λ c, is_run_control c = false) post.
Proof.
  split; [exact sample_helpers_ok|].
  exact (run_is_bracketed defaults sample_cs sample_world sample_helpers_ok).
Defined.

(** ** More on the scheduled sends *)

Lemma length_scheduled rsuIp socks z :
  length (scheduled rsuIp socks z) = (2 * length socks)%nat.
Proof.
  revert z. induction socks as [|s socks IH]; intros z; simpl; [done|].
  rewrite IH. lia.
Qed.

Lemma main_worlds cfg cs w :
  helpers_ok cfg cs w →
  ∃ rsuDev rsuNd rsuIp rsuNode flowMonitor wS wF,
    devices cs !! Z.to_nat (nVehicles cfg) = Some rsuDev
    ∧ w_devices w !! rsuDev = Some rsuNd
    ∧ interfaces cs !! Z.to_nat (nVehicles cfg) = Some rsuIp
    ∧ rsu cs !! 0%nat = Some rsuNode
    ∧ setup cfg cs w = Some (flowMonitor, wS)
    ∧ setup_facts cfg cs w rsuIp (GetAddress rsuNd) rsuNode flowMonitor wS
    ∧ main cfg cs w = Some wF
    ∧ w_events wF = w_events wS ∧ w_sockets wF = w_sockets wS
    ∧ w_arp wF = w_arp wS ∧ w_ipv4 wF = w_ipv4 wS ∧ w_tc wF = w_tc wS
    ∧ w_devices wF = w_devices wS ∧ w_cout wF = w_cout wS.
Proof.
  intros Hok.
  destruct (main_spec cfg cs w Hok)
    as (rsuDev & rsuNd & rsuIp & rsuNode & fm & wS & H1 & H2 & H3 & H4 & H5 & H6 & H7).
  destruct (finish_frame cfg fm wS) as [calls Hfin].
  exists rsuDev, rsuNd, rsuIp, rsuNode, fm, wS, (set_calls calls wS).
  rewrite <- Hfin. repeat (split; [assumption|]). rewrite Hfin. repeat split.
Qed.

(** X9.  [main] schedules two events per vehicle and nothing else, creates
    one ARP cache per vehicle and one socket per vehicle besides the RSU's.
    With [nVehicles = 0] it therefore schedules nothing, creates no cache
    and only opens the RSU socket. *)
Theorem main_creates cfg cs w :
  helpers_ok cfg cs w →
  ∃ wF,
    main cfg cs w = Some wF
    ∧ Z.of_nat (length (w_events wF)) = 2 * nVehicles cfg
    ∧ Z.of_nat (length (w_arp wF)) = Z.of_nat (length (w_arp w)) + nVehicles cfg
    ∧ Z.of_nat (length (w_sockets wF))
      = Z.of_nat (length (w_sockets w)) + 1 + nVehicles cfg
    ∧ (nVehicles cfg = 0 →
       w_events wF = [] ∧ w_arp wF = w_arp w
       ∧ ∃ rsuNode, rsu cs !! 0%nat = Some rsuNode
                    ∧ w_sockets wF = w_sockets w ++ [rsu_socket rsuNode]).
Proof.
  intros Hok.
  destruct (main_worlds cfg cs w Hok)
    as (rsuDev & rsuNd & rsuIp & rsuNode & fm & wS & wF & _ & _ & _ & Hrsu & _ & Hf
        & Hmain & Hev & Hsk & Harp & _).
  destruct Hok as [Hn _ Hveh _ _ _ _ _ _ _ _].
  destruct Hf as [_ Farp _ _ Fsock Fev _ _].
  exists wF. split; [exact Hmain|].
  rewrite Hev, Hsk, Harp, Fev, Farp, Fsock.
  split; [rewrite length_scheduled, length_vehicle_handles; lia|].
  split; [rewrite length_app, length_replicate; lia|].
  split; [rewrite length_app; simpl; rewrite length_fmap, Hveh; lia|].
  intros H0. rewrite H0 in *. simpl.
  split; [reflexivity|]. split; [by rewrite app_nil_r|].
  exists rsuNode. split; [exact Hrsu|].
  destruct (vehicles cs); [done | simpl in Hveh; lia].
Qed.

Lemma main_creates_witness :
  helpers_ok defaults sample_cs sample_world
  ∧ ∃ wF,
      main defaults sample_cs sample_world = Some wF
      ∧ Z.of_nat (length (w_events wF)) = 2 * nVehicles defaults
      ∧ Z.of_nat (length (w_arp wF))
        = Z.of_nat (length (w_arp sample_world)) + nVehicles defaults
      ∧ Z.of_nat (length (w_sockets wF))
        = Z.of_nat (length (w_sockets sample_world)) + 1 + nVehicles defaults
      ∧ (nVehicles defaults = 0 →
         w_events wF = [] ∧ w_arp wF = w_arp sample_world
         ∧ ∃ rsuNode, rsu sample_cs !! 0%nat = Some rsuNode
                      ∧ w_sockets wF = w_sockets sample_world ++ [rsu_socket rsuNode]).
Proof.
  split; [exact sample_helpers_ok|].
  exact (main_creates defaults sample_cs sample_world sample_helpers_ok).
Defined.

Lemma Seconds_le a b : Seconds a ≤ Seconds b ↔ a ≤ b.
Proof. unfold Seconds. lia. Qed.






(** ** The RSU socket and the sends *)

(** X11.  The RSU socket is the first socket [main] creates: a UDP socket
    on the RSU node, bound to 0.0.0.0 and port 5000, with [ReceivePacket] as
    its receive callback, and it is the only socket [main] gives a callback
    or binds.  Every scheduled send goes to the port the RSU socket is bound
    to, and is made on a vehicle's own unbound socket, never on the RSU
    socket. *)
Theorem sends_match_rsu_socket cfg cs w :
  helpers_ok cfg cs w →
  ∃ wF rsuNode,
    main cfg cs w = Some wF
    ∧ rsu cs !! 0%nat = Some rsuNode
    ∧ w_sockets wF !! length (w_sockets w)
      = Some {| sk_node := rsuNode; sk_tid := UdpSocketFactory;
                sk_bound := Some {| GetIpv4 := Ipv4Address_GetAny; GetPort := 5000 |};
                sk_recvCallback := Some CbReceivePacket;
                sk_deliveryQueue := [] |}
    ∧ (∀ p s, (length (w_sockets w) < p)%nat → w_sockets wF !! p = Some s →
         sk_bound s = None ∧ sk_recvCallback s = None)
    ∧ ∀ e now fr acts sock packet flags to,
        e ∈ w_events wF →
        invoke (ev_action e) now fr = Some acts →
        ActSendTo sock packet flags to ∈ acts →
        GetPort to = 5000
        ∧ sock ≠ length (w_sockets w)
        ∧ ∃ v, v ∈ vehicles cs ∧ w_sockets wF !! sock = Some (fresh_socket v).
Proof.
  intros Hok.
  destruct (main_worlds cfg cs w Hok)
    as (rsuDev & rsuNd & rsuIp & rsuNode & fm & wS & wF & _ & _ & _ & Hrsu & _ & Hf
        & Hmain & Hev & Hsk & _).
  destruct Hok as [Hn _ Hveh _ _ _ _ _ _ _ _].
  destruct Hf as [_ _ _ _ Fsock Fev _ _].
  exists wF, rsuNode. split; [exact Hmain|]. split; [exact Hrsu|].
  rewrite Hev, Hsk, Fev, Fsock. split.
  { rewrite lookup_app_r by lia. by rewrite Nat.sub_diag. }
  split.
  { intros p s Hp Hs. rewrite lookup_app_r in Hs by lia.
    destruct (p - length (w_sockets w))%nat as [|k] eqn:Hk; [lia|]. simpl in Hs.
    rewrite list_lookup_fmap in Hs.
    destruct (vehicles cs !! k); [|done]. injection Hs as <-. done. }
  intros e now fr acts sock packet flags to He Hinv Hact.
  apply elem_of_scheduled in He as (k & sk & Hk & He).
  assert (k < Z.to_nat (nVehicles cfg))%nat as Hlt.
  { apply lookup_lt_Some in Hk. by rewrite length_vehicle_handles in Hk. }
  rewrite vehicle_handles_lookup in Hk by done. injection Hk as <-.
  assert (ev_action e
          = send_lambda rsuIp (Some (S (length (w_sockets w)) + k)%nat) (0 + Z.of_nat k))
    as Hact'.
  { apply elem_of_cons in He as [->|He]; [done|].
    by apply list_elem_of_singleton in He as ->. }
  rewrite Hact' in Hinv. unfold invoke, SendPacket, send_lambda in Hinv.
  simpl in Hinv. injection Hinv as <-.
  apply elem_of_cons in Hact as [Hact|Hact].
  2: { apply list_elem_of_singleton in Hact. discriminate Hact. }
  injection Hact as -> _ _ ->. simpl.
  split; [reflexivity|]. split; [lia|].
  destruct (lookup_lt_is_Some_2 (vehicles cs) k) as [v Hv]; [lia|].
  exists v. split; [by eapply list_elem_of_lookup_2|].
  rewrite lookup_app_r by lia.
  replace (S (length (w_sockets w) + k) - length (w_sockets w))%nat with (S k) by lia.
  simpl. by rewrite list_lookup_fmap, Hv.
Qed.

Lemma sends_match_rsu_socket_witness :
  helpers_ok defaults sample_cs sample_world
  ∧ ∃ wF rsuNode,
      main defaults sample_cs sample_world = Some wF
      ∧ rsu sample_cs !! 0%nat = Some rsuNode
      ∧ w_sockets wF !! length (w_sockets sample_world)
        = Some {| sk_node := rsuNode; sk_tid := UdpSocketFactory;
                  sk_bound := Some {| GetIpv4 := Ipv4Address_GetAny; GetPort := 5000 |};
                  sk_recvCallback := Some CbReceivePacket;
                  sk_deliveryQueue := [] |}
      ∧ (∀ p s, (length (w_sockets sample_world) < p)%nat →
           w_sockets wF !! p = Some s →
           sk_bound s = None ∧ sk_recvCallback s = None)
      ∧ ∀ e now fr acts sock packet flags to,
          e ∈ w_events wF →
          invoke (ev_action e) now fr = Some acts →
          ActSendTo sock packet flags to ∈ acts →
          GetPort to = 5000
          ∧ sock ≠ length (w_sockets sample_world)
          ∧ ∃ v, v ∈ vehicles sample_cs ∧ w_sockets wF !! sock = Some (fresh_socket v).
Proof.
  split; [exact sample_helpers_ok|].
  exact (sends_match_rsu_socket defaults sample_cs sample_world sample_helpers_ok).
Defined.

(** ** What the queue disc block writes *)

(** The line the selection loop writes for the device of index [i]: none
    when the device is selected. *)
Definition skip_line (cs : Containers) (w : World) (i : nat) : list OutLine :=
  match devices cs !! i with
  | Some d =>
      if decide (root_queue_disc w d = None) then []
      else [OutSkipQueueDisc (Z.of_nat i)]
  | None => []
  end.

(** The lines of the first [k] iterations. *)
Definition skip_lines (cs : Containers) (w : World) (k : nat) : list OutLine :=
  seq 0 k ≫= skip_line cs w.

(** The devices without a root queue disc. *)
Definition to_install (cs : Containers) (w : World) : list nat :=
  filter (λ d, root_queue_disc w d = None) (devices cs).

(** The line that ends the block. *)
Definition tc_summary (cs : Containers) (w : World) : OutLine :=
  if bool_decide (0 < Z.of_nat (length (to_install cs w)))
  then OutInstalledQueueDiscs (Z.of_nat (length (to_install cs w)))
  else OutNoQueueDiscInstall.

Lemma skip_lines_S cs w k :
  skip_lines cs w (S k) = skip_lines cs w k ++ skip_line cs w k.
Proof.
  unfold skip_lines. rewrite seq_S, bind_app. simpl. by rewrite app_nil_r.
Qed.

Lemma select_devices_out cs w :
  Z.of_nat (length (devices cs)) < 2 ^ 32 →
  (∀ d, d ∈ devices cs → is_Some (w_devices w !! d)) →
  select_devices cs w
  = Some (to_install cs w,
          set_cout (w_cout w ++ skip_lines cs w (length (devices cs))) w).
Proof.
  intros Hlen Hvalid. unfold select_devices. rewrite GetN_small by done.
  destruct (for_uint32_inv
    (λ i st, st = (filter (λ d, root_queue_disc w d = None) (take (Z.to_nat i) (devices cs)),
                   set_cout (w_cout w ++ skip_lines cs w (Z.to_nat i)) w))
    (Z.of_nat (length (devices cs))) (select_body cs) ([], w)) as (t & Ht & HI); [lia | | |].
  - simpl. unfold skip_lines. simpl. rewrite app_nil_r. by destruct w.
  - intros i t Hi ->.
    destruct (lookup_lt_is_Some_2 (devices cs) (Z.to_nat i)) as [d Hd]; [lia|].
    destruct (Hvalid d (list_elem_of_lookup_2 _ _ _ Hd)) as [nd Hnd].
    unfold select_body. rewrite Hd. simpl.
    rewrite (alreadyHas_spec _ _ nd) by done. simpl. rewrite negb_involutive.
    replace (Z.to_nat (i + 1)) with (S (Z.to_nat i)) by lia.
    rewrite (take_S_r _ _ _ Hd), filter_app, skip_lines_S.
    unfold skip_line. rewrite Hd.
    change (root_queue_disc (set_cout (w_cout w ++ skip_lines cs w (Z.to_nat i)) w) d)
      with (root_queue_disc w d).
    case_bool_decide as Hroot.
    + eexists. split; [reflexivity|].
      rewrite filter_cons_True by done. rewrite decide_True by done.
      by rewrite app_nil_r.
    + eexists. split; [reflexivity|].
      rewrite filter_cons_False by done. rewrite decide_False by done.
      rewrite filter_nil, app_nil_r. unfold cout. simpl.
      rewrite Z2Nat.id by lia. by rewrite <- app_assoc.
  - rewrite Ht, HI, Nat2Z.id, firstn_all. done.
Qed.

Lemma tch_Install_device_has_tc root w d w' d' :
  tch_Install_device root w d = Some w' → has_tc w d' → has_tc w' d'.
Proof.
  unfold tch_Install_device. intros H (nd' & Hnd' & Htc').
  destruct (w_devices w !! d) as [nd|]; [|done]. simpl in H.
  destruct (w_tc w !! GetNode nd) as [tc|] eqn:Htc; [|done]. simpl in H.
  destruct (GetRootQueueDiscOnDevice tc d); [done|]. injection H as <-.
  exists nd'. split; [done|]. simpl.
  destruct (decide (GetNode nd' = GetNode nd)) as [Heq|Hne].
  - by rewrite Heq, lookup_insert_eq.
  - by rewrite lookup_insert_ne.
Qed.

Lemma tch_Install_has_tc root l :
  ∀ w w' d', tch_Install root l w = Some w' → has_tc w d' → has_tc w' d'.
Proof.
  induction l as [|d l IH]; intros w w' d' H Htc.
  - by injection H as <-.
  - rewrite tch_Install_cons in H.
    destruct (tch_Install_device root w d) as [w1|] eqn:H1; [|done]. simpl in H.
    eapply IH; [exact H|]. by eapply tch_Install_device_has_tc.
Qed.

(** The whole block, with what it writes. *)
Lemma install_queue_discs_out cs w :
  Z.of_nat (length (devices cs)) < 2 ^ 32 →
  NoDup (devices cs) →
  (∀ d, d ∈ devices cs → has_tc w d) →
  ∃ tcs,
    install_queue_discs cs w
    = Some (set_cout (w_cout w ++ skip_lines cs w (length (devices cs))
                      ++ [tc_summary cs w]) (set_tc tcs w))
    ∧ (∀ d, root_queue_disc (set_tc tcs w) d = root_after cs w d)
    ∧ (∀ d, has_tc w d → has_tc (set_tc tcs w) d).
Proof.
  intros Hlen Hnd Htc. unfold install_queue_discs.
  rewrite select_devices_out; [|done|].
  2: { intros d Hd. destruct (Htc d Hd) as (nd & -> & _). by eexists. }
  simpl. unfold tc_summary.
  set (l := to_install cs w).
  set (out := w_cout w ++ skip_lines cs w (length (devices cs))).
  assert (Z.of_nat (length l) < 2 ^ 32) as Hl.
  { pose proof (length_filter (λ d, root_queue_disc w d = None) (devices cs)).
    unfold l, to_install. lia. }
  rewrite !GetN_small by done.
  case_bool_decide as Hpos.
  - destruct (tch_Install_spec PfifoFastQueueDisc l) with (w := set_cout out w)
      as (tcs & Hinst & Hroots).
    { by apply NoDup_filter. }
    { intros d [Hroot Hd]%list_elem_of_filter. split; [|exact Hroot].
      apply (has_tc_ext w); [done | done | by apply Htc]. }
    rewrite Hinst. simpl. exists tcs. split.
    { unfold cout, out. simpl. by rewrite <- app_assoc. }
    split.
    + intros d. unfold root_after.
      change (root_queue_disc (set_tc tcs (set_cout out w)) d
              = if decide (d ∈ devices cs ∧ root_queue_disc w d = None)
                then Some PfifoFastQueueDisc else root_queue_disc w d).
      rewrite Hroots. change (root_queue_disc (set_cout out w) d) with (root_queue_disc w d).
      destruct (decide (d ∈ l)) as [Hin|Hout].
      * apply list_elem_of_filter in Hin as [? ?]. by rewrite decide_True.
      * rewrite decide_False; [done|]. intros [? ?]. apply Hout.
        by apply list_elem_of_filter.
    + intros d Hd.
      apply (has_tc_ext (set_tc tcs (set_cout out w))); [done | done|].
      eapply tch_Install_has_tc; [exact Hinst|].
      by apply (has_tc_ext w).
  - assert (l = []) as Hnil by (destruct l; [done | simpl in Hpos; lia]).
    exists (w_tc w). split.
    { unfold cout, out. simpl. by rewrite <- app_assoc. }
    split.
    + intros d. unfold root_after.
      change (root_queue_disc w d
              = if decide (d ∈ devices cs ∧ root_queue_disc w d = None)
                then Some PfifoFastQueueDisc else root_queue_disc w d).
      rewrite decide_False; [done|]. intros [Hd Hroot].
      assert (d ∈ l) as Hin by by apply list_elem_of_filter.
      rewrite Hnil in Hin. by apply not_elem_of_nil in Hin.
    + intros d Hd. by apply (has_tc_ext w).
Qed.

Lemma filter_nothing {A : Type} (P : A → Prop) `{∀ x, Decision (P x)} (l : list A) :
  (∀ x, x ∈ l → ¬ P x) → filter P l = [].
Proof.
  induction l as [|x l IH]; intros Hall; [done|].
  rewrite filter_cons_False by (apply Hall; by left).
  apply IH. intros y Hy. apply Hall. by right.
Qed.

Lemma skip_lines_all cs w :
  (∀ d, d ∈ devices cs → root_queue_disc w d ≠ None) →
  ∀ k, (k ≤ length (devices cs))%nat →
  skip_lines cs w k = OutSkipQueueDisc <$> seqZ 0 (Z.of_nat k).
Proof.
  intros Hall. induction k as [|k IH]; intros Hk; [done|].
  rewrite skip_lines_S, IH, seqZ_S, fmap_app by lia. f_equal.
  unfold skip_line.
  destruct (lookup_lt_is_Some_2 (devices cs) k) as [d Hd]; [lia|].
  rewrite Hd, decide_False; [done|].
  apply Hall. by eapply list_elem_of_lookup_2.
Qed.

(** X12.  The block of lines 168-206 can be run again: the second time
    every device is found to have a root queue disc, so the selection is
    empty, one "Skipping" line is written per device, in order, followed by
    the line that says nothing had to be installed, [Install] is not called
    and every root queue disc is the one the first run left. *)
Theorem install_queue_discs_twice cs w w2 :
  Z.of_nat (length (devices cs)) < 2 ^ 32 →
  NoDup (devices cs) →
  (∀ d, d ∈ devices cs → has_tc w d) →
  install_queue_discs cs w = Some w2 →
  ∃ w3,
    install_queue_discs cs w2 = Some w3
    ∧ fst <$> select_devices cs w2 = Some []
    ∧ (∀ d, root_queue_disc w3 d = root_queue_disc w2 d)
    ∧ w_cout w3
      = w_cout w2
        ++ (OutSkipQueueDisc <$> seqZ 0 (Z.of_nat (length (devices cs))))
        ++ [OutNoQueueDiscInstall].
Proof.
  intros Hlen Hnd Htc Hw2.
  destruct (install_queue_discs_out cs w Hlen Hnd Htc) as (tcs & Hinst & Hroots & Hkeep).
  rewrite Hinst in Hw2. injection Hw2 as <-.
  set (w2 := set_cout _ (set_tc tcs w)).
  assert (∀ d, root_queue_disc w2 d = root_after cs w d) as Hroots2 by exact Hroots.
  assert (∀ d, d ∈ devices cs → root_queue_disc w2 d ≠ None) as Hsome.
  { intros d Hd. rewrite Hroots2. unfold root_after.
    destruct (decide (d ∈ devices cs ∧ root_queue_disc w d = None)) as [_|Hno];
      [done|].
    intros Hroot. apply Hno. done. }
  assert (∀ d, d ∈ devices cs → has_tc w2 d) as Htc2.
  { intros d Hd. apply (has_tc_ext (set_tc tcs w)); [done | done|].
    apply Hkeep. by apply Htc. }
  assert (to_install cs w2 = []) as Hnil.
  { unfold to_install. apply filter_nothing. intros d Hd. by apply Hsome. }
  destruct (install_queue_discs_out cs w2 Hlen Hnd Htc2) as (tcs' & Hinst' & Hroots' & _).
  eexists. split; [exact Hinst'|]. split.
  { rewrite select_devices_out; [by rewrite Hnil | done |].
    intros d Hd. destruct (Htc2 d Hd) as (nd & -> & _). by eexists. }
  split.
  - intros d.
    change (root_queue_disc (set_tc tcs' w2) d = root_queue_disc w2 d).
    rewrite Hroots'. unfold root_after.
    destruct (decide (d ∈ devices cs ∧ root_queue_disc w2 d = None)) as [[Hd Hno]|_];
      [|done].
    by destruct (Hsome d Hd).
  - simpl. unfold tc_summary. rewrite Hnil. simpl.
    by rewrite (skip_lines_all cs w2 Hsome).
Qed.

Lemma install_queue_discs_twice_witness :
  Z.of_nat (length (devices sample_cs)) < 2 ^ 32
  ∧ NoDup (devices sample_cs)
  ∧ (∀ d, d ∈ devices sample_cs → has_tc sample_world d)
  ∧ ∃ w2 w3,
      install_queue_discs sample_cs sample_world = Some w2
      ∧ install_queue_discs sample_cs w2 = Some w3
      ∧ fst <$> select_devices sample_cs w2 = Some []
      ∧ (∀ d, root_queue_disc w3 d = root_queue_disc w2 d)
      ∧ w_cout w3
        = w_cout w2
          ++ (OutSkipQueueDisc <$> seqZ 0 (Z.of_nat (length (devices sample_cs))))
          ++ [OutNoQueueDiscInstall].
Proof.
  assert (Z.of_nat (length (devices sample_cs)) < 2 ^ 32) as H1 by (simpl; lia).
  pose proof (ok_devices_nodup _ _ _ sample_helpers_ok) as H2.
  pose proof (ok_tc _ _ _ sample_helpers_ok) as H3.
  split; [exact H1|]. split; [exact H2|]. split; [exact H3|].
  destruct (install_queue_discs_out sample_cs sample_world H1 H2 H3) as (tcs & Hw2 & _).
  eexists. 
  destruct (install_queue_discs_twice sample_cs sample_world _ H1 H2 H3 Hw2)
    as (w3 & Ha & Hb & Hc & Hd).
  exists w3. split; [exact Hw2|]. split; [exact Ha|]. split; [exact Hb|].
  split; [exact Hc | exact Hd].
Defined.

(** ** What [main] writes, and what it leaves alone *)

Lemma skip_lines_ext cs w w' k :
  (∀ d, root_queue_disc w' d = root_queue_disc w d) →
  skip_lines cs w' k = skip_lines cs w k.
Proof.
  intros Hroots. induction k as [|k IH]; [done|].
  rewrite !skip_lines_S, IH. f_equal. unfold skip_line.
  destruct (devices cs !! k) as [d|]; [|done]. by rewrite Hroots.
Qed.

Lemma to_install_ext cs w w' :
  (∀ d, root_queue_disc w' d = root_queue_disc w d) →
  to_install cs w' = to_install cs w.
Proof.
  intros Hroots. unfold to_install. apply list_filter_iff.
  intros d. by rewrite Hroots.
Qed.

(** The output of [main] up to [Simulator::Run]: the banner, one line per
    vehicle for its ARP cache, one line per device that is skipped, and the
    line that ends the queue disc block. *)
Definition setup_output (cfg : Config) (cs : Containers) (w : World)
    (rsuIp : Ipv4Address) (rsuMac : Mac48Address) : list OutLine :=
  [OutBanner (nVehicles cfg) (simTime cfg)]
  ++ ((λ i, OutArp i rsuIp rsuMac) <$> seqZ 0 (nVehicles cfg))
  ++ skip_lines cs w (length (devices cs))
  ++ [tc_summary cs w].

Lemma setup_more cfg cs w :
  helpers_ok cfg cs w →
  ∃ rsuDev rsuNd rsuIp flowMonitor wS,
    devices cs !! Z.to_nat (nVehicles cfg) = Some rsuDev
    ∧ w_devices w !! rsuDev = Some rsuNd
    ∧ interfaces cs !! Z.to_nat (nVehicles cfg) = Some rsuIp
    ∧ setup cfg cs w = Some (flowMonitor, wS)
    ∧ (∀ v, v ∉ vehicles cs → w_ipv4 wS !! v = w_ipv4 w !! v)
    ∧ w_cout wS = w_cout w ++ setup_output cfg cs w rsuIp (GetAddress rsuNd).
Proof.
  intros [Hn Hn32 Hveh Hvnd Hrsu Hdev Hdnd Hifs Hipv4 Htc Hev].
  destruct (lookup_lt_is_Some_2 (devices cs) (Z.to_nat (nVehicles cfg))) as [rsuDev HrsuDev]; [lia|].
  destruct (Htc rsuDev (list_elem_of_lookup_2 _ _ _ HrsuDev)) as (rsuNd & HrsuNd & _).
  destruct (lookup_lt_is_Some_2 (interfaces cs) (Z.to_nat (nVehicles cfg))) as [rsuIp HrsuIp]; [lia|].
  destruct (lookup_lt_is_Some_2 (rsu cs) 0) as [rsuNode HrsuNode]; [lia|].
  set (rsuMac := GetAddress rsuNd).
  set (w0 := cout (OutBanner (nVehicles cfg) (simTime cfg)) w).
  destruct (prepopulate_arp_spec cfg cs rsuIp rsuMac w0 Hn Hveh Hvnd Hipv4)
    as (w1 & Hw1 & [Atc Adev Asock Aev Acalls Aarp Adone Arest Acout]).
  assert (∀ d, root_queue_disc w1 d = root_queue_disc w d) as Hr1.
  { intros d. by apply root_queue_disc_ext. }
  destruct (install_queue_discs_out cs w1) as (tcs & Hw2 & _ & _); [lia | done | |].
  { intros d Hd. apply (has_tc_ext w); [done | done | by apply Htc]. }
  exists rsuDev, rsuNd, rsuIp. do 2 eexists.
  split; [exact HrsuDev|]. split; [exact HrsuNd|]. split; [exact HrsuIp|]. split.
  { unfold setup. fold w0. rewrite HrsuDev. simpl.
    change (w_devices w0) with (w_devices w). rewrite HrsuNd. simpl.
    rewrite HrsuIp. simpl. fold rsuMac. rewrite Hw1. simpl. rewrite Hw2. simpl.
    erewrite open_rsu_socket_spec by exact HrsuNode. simpl.
    rewrite open_vehicle_sockets_spec by done. simpl.
    rewrite schedule_sends_spec by (rewrite ?length_vehicle_handles; done).
    reflexivity. }
  destruct (enablePcap cfg), (enableFlowMonitor cfg); simpl.
  all: split;
    [ intros v Hv; rewrite Arest; [reflexivity | by rewrite firstn_all2 by lia]
    | rewrite Acout; unfold setup_output, tc_summary;
      rewrite (skip_lines_ext cs w w1 _ Hr1), (to_install_ext cs w w1 Hr1);
      rewrite Z2Nat.id by lia; simpl; rewrite <- !app_assoc; reflexivity ].
Qed.

(** X13.  Up to [Simulator::Run], [main] writes exactly these lines, in
    this order: the banner with [nVehicles] and [simTime]; one line per
    vehicle index, in order, each naming the RSU's address and MAC; one
    "Skipping" line per device that had a root queue disc, in the order of
    the container; and one closing line, which gives the number of devices
    installed on when there is one, and says that none was needed
    otherwise.  Every device is accounted for: the skipped ones and the
    installed ones add up to the number of devices. *)
Theorem setup_writes cfg cs w :
  helpers_ok cfg cs w →
  ∃ flowMonitor wS rsuDev rsuNd rsuIp,
    setup cfg cs w = Some (flowMonitor, wS)
    ∧ devices cs !! Z.to_nat (nVehicles cfg) = Some rsuDev
    ∧ w_devices w !! rsuDev = Some rsuNd
    ∧ interfaces cs !! Z.to_nat (nVehicles cfg) = Some rsuIp
    ∧ w_cout wS
      = w_cout w
        ++ [OutBanner (nVehicles cfg) (simTime cfg)]
        ++ ((λ i, OutArp i rsuIp (GetAddress rsuNd)) <$> seqZ 0 (nVehicles cfg))
        ++ skip_lines cs w (length (devices cs))
        ++ [if bool_decide (to_install cs w = [])
            then OutNoQueueDiscInstall
            else OutInstalledQueueDiscs (Z.of_nat (length (to_install cs w)))]
    ∧ (length (skip_lines cs w (length (devices cs))) + length (to_install cs w)
       = length (devices cs))%nat.
Proof.
  intros Hok.
  destruct (setup_more cfg cs w Hok)
    as (rsuDev & rsuNd & rsuIp & fm & wS & H1 & H2 & H3 & Hs & _ & Hout).
  exists fm, wS, rsuDev, rsuNd, rsuIp.
  repeat (split; [assumption|]). split.
  - rewrite Hout. unfold setup_output, tc_summary. do 4 f_equal.
    destruct (to_install cs w); done.
  - clear. unfold to_install.
    assert (∀ k, (k ≤ length (devices cs))%nat →
              (length (skip_lines cs w k)
               + length (filter (λ d, root_queue_disc w d = None) (take k (devices cs)))
               = k)%nat) as Hk.
    { induction k as [|k IH]; intros Hle; [done|].
      destruct (lookup_lt_is_Some_2 (devices cs) k) as [d Hd]; [lia|].
      rewrite skip_lines_S, (take_S_r _ _ _ Hd), filter_app, !length_app.
      unfold skip_line. rewrite Hd.
      destruct (decide (root_queue_disc w d = None)).
      - rewrite filter_cons_True by done. simpl. specialize (IH ltac:(lia)). lia.
      - rewrite filter_cons_False by done. simpl. specialize (IH ltac:(lia)). lia. }
    specialize (Hk (length (devices cs)) ltac:(lia)).
    by rewrite firstn_all in Hk.
Qed.

Lemma setup_writes_witness :
  helpers_ok defaults sample_cs sample_world
  ∧ ∃ flowMonitor wS rsuDev rsuNd rsuIp,
      setup defaults sample_cs sample_world = Some (flowMonitor, wS)
      ∧ devices sample_cs !! Z.to_nat (nVehicles defaults) = Some rsuDev
      ∧ w_devices sample_world !! rsuDev = Some rsuNd
      ∧ interfaces sample_cs !! Z.to_nat (nVehicles defaults) = Some rsuIp
      ∧ w_cout wS
        = w_cout sample_world
          ++ [OutBanner (nVehicles defaults) (simTime defaults)]
          ++ ((λ i, OutArp i rsuIp (GetAddress rsuNd)) <$> seqZ 0 (nVehicles defaults))
          ++ skip_lines sample_cs sample_world (length (devices sample_cs))
          ++ [if bool_decide (to_install sample_cs sample_world = [])
              then OutNoQueueDiscInstall
              else OutInstalledQueueDiscs
                     (Z.of_nat (length (to_install sample_cs sample_world)))]
      ∧ (length (skip_lines sample_cs sample_world (length (devices sample_cs)))
         + length (to_install sample_cs sample_world)
         = length (devices sample_cs))%nat.
Proof.
  split; [exact sample_helpers_ok|].
  exact (setup_writes defaults sample_cs sample_world sample_helpers_ok).
Defined.

(** X14.  Each vehicle gets an ARP cache of its own, the [i]-th vehicle the
    [i]-th cache created, and all the interfaces of a vehicle share that one
    cache.  Such a cache knows the RSU's address and no other.  The caches
    that existed before are not touched, and a node that is not a vehicle,
    the RSU among them, keeps its interfaces as the helpers left them: the
    script gives it no cache. *)
Theorem arp_caches_scope cfg cs w :
  helpers_ok cfg cs w →
  ∃ flowMonitor wS rsuIp,
    setup cfg cs w = Some (flowMonitor, wS)
    ∧ interfaces cs !! Z.to_nat (nVehicles cfg) = Some rsuIp
    ∧ (∀ i v, vehicles cs !! i = Some v →
         ∃ ifs c,
           w_ipv4 wS !! v = Some ifs
           ∧ Forall (λ iface, m_cache iface = Some (length (w_arp w) + i)%nat) ifs
           ∧ w_arp wS !! (length (w_arp w) + i)%nat = Some c
           ∧ ∀ ip, is_Some (m_arpCache c !! ip) ↔ ip = rsuIp)
    ∧ (∀ p, (p < length (w_arp w))%nat → w_arp wS !! p = w_arp w !! p)
    ∧ (∀ v, v ∉ vehicles cs → w_ipv4 wS !! v = w_ipv4 w !! v).
Proof.
  intros Hok.
  destruct (setup_spec cfg cs w Hok)
    as (rsuDev & rsuNd & rsuIp & rsuNode & fm & wS & _ & _ & HrsuIp & _ & Hs & Hf).
  destruct (setup_more cfg cs w Hok)
    as (_ & _ & _ & fm' & wS' & _ & _ & _ & Hs' & Hrest & _).
  rewrite Hs in Hs'. injection Hs' as <- <-.
  exists fm, wS, rsuIp. split; [exact Hs|]. split; [exact HrsuIp|].
  destruct Hok as [Hn _ Hveh _ _ _ _ _ Hready _ _].
  destruct Hf as [_ Harp Hipv4 _ _ _ _ _].
  split; [|split; [|exact Hrest]].
  - intros i v Hv.
    pose proof (lookup_lt_Some _ _ _ Hv) as Hi.
    destruct (Hready v (list_elem_of_lookup_2 _ _ _ Hv)) as (ifs & Hifs & _).
    exists (SetArpCache (length (w_arp w) + i)%nat <$> ifs),
           (rsu_cache rsuIp (GetAddress rsuNd)).
    split; [rewrite (Hipv4 i v) by (done || lia); by rewrite Hifs|].
    split; [apply Forall_fmap, Forall_forall; by intros|].
    split.
    { rewrite Harp, lookup_app_r by lia. apply lookup_replicate_2. lia. }
    intros ip. unfold rsu_cache. simpl. split.
    + intros [e He]. by apply lookup_singleton_Some in He as [-> _].
    + intros ->. rewrite lookup_singleton_eq. by eexists.
  - intros p Hp. by rewrite Harp, lookup_app_l.
Qed.

Lemma arp_caches_scope_witness :
  helpers_ok defaults sample_cs sample_world
  ∧ ∃ flowMonitor wS rsuIp,
      setup defaults sample_cs sample_world = Some (flowMonitor, wS)
      ∧ interfaces sample_cs !! Z.to_nat (nVehicles defaults) = Some rsuIp
      ∧ (∀ i v, vehicles sample_cs !! i = Some v →
           ∃ ifs c,
             w_ipv4 wS !! v = Some ifs
             ∧ Forall (λ iface, m_cache iface
                                = Some (length (w_arp sample_world) + i)%nat) ifs
             ∧ w_arp wS !! (length (w_arp sample_world) + i)%nat = Some c
             ∧ ∀ ip, is_Some (m_arpCache c !! ip) ↔ ip = rsuIp)
      ∧ (∀ p, (p < length (w_arp sample_world))%nat →
           w_arp wS !! p = w_arp sample_world !! p)
      ∧ (∀ v, v ∉ vehicles sample_cs → w_ipv4 wS !! v = w_ipv4 sample_world !! v).
Proof.
  split; [exact sample_helpers_ok|].
  exact (arp_caches_scope defaults sample_cs sample_world sample_helpers_ok).
Defined.

(** ** A node without a traffic-control layer *)

Lemma tch_Install_device_keeps_missing root w d w' node :
  tch_Install_device root w d = Some w' →
  w_tc w !! node = None →
  w_devices w' = w_devices w ∧ w_tc w' !! node = None.
Proof.
  unfold tch_Install_device. intros H Hnone.
  destruct (w_devices w !! d) as [nd|]; [|done]. simpl in H.
  destruct (w_tc w !! GetNode nd) as [tc|] eqn:Htc; [|done]. simpl in H.
  destruct (GetRootQueueDiscOnDevice tc d); [done|]. injection H as <-.
  split; [done|]. simpl. rewrite lookup_insert_ne; [done|].
  intros Heq. rewrite Heq in Htc. congruence.
Qed.

Lemma tch_Install_missing_tc root l :
  ∀ w d nd, d ∈ l → w_devices w !! d = Some nd → w_tc w !! GetNode nd = None →
  tch_Install root l w = None.
Proof.
  induction l as [|d' l IH]; intros w d nd Hd Hnd Hnone.
  - by apply elem_of_nil in Hd.
  - rewrite tch_Install_cons.
    destruct (tch_Install_device root w d') as [w'|] eqn:H'; [|done]. simpl.
    apply elem_of_cons in Hd as [->|Hd].
    + unfold tch_Install_device in H'. rewrite Hnd in H'. simpl in H'.
      by rewrite Hnone in H'.
    + destruct (tch_Install_device_keeps_missing _ _ _ _ _ H' Hnone) as [Hdev Htc].
      apply (IH w' d nd); [done | by rewrite Hdev | done].
Qed.

(** X15.  The test [if (tc)] of the selection loop does not guard the
    installation.  A device whose node has no [TrafficControlLayer] counts
    as having no root queue disc: the loop selects it and writes no
    "Skipping" line for it.  The installation on the selected devices then
    has no defined result, whatever the other devices are. *)
Theorem device_without_layer_is_selected cs w i d nd :
  Z.of_nat (length (devices cs)) < 2 ^ 32 →
  (∀ d', d' ∈ devices cs → is_Some (w_devices w !! d')) →
  devices cs !! i = Some d →
  w_devices w !! d = Some nd →
  w_tc w !! GetNode nd = None →
  (∃ devicesToInstall w' out,
     select_devices cs w = Some (devicesToInstall, w')
     ∧ d ∈ devicesToInstall
     ∧ w_cout w' = w_cout w ++ out
     ∧ OutSkipQueueDisc (Z.of_nat i) ∉ out)
  ∧ install_queue_discs cs w = None.
Proof.
  intros Hlen Hvalid Hi Hnd Hnone.
  assert (root_queue_disc w d = None) as Hroot.
  { unfold root_queue_disc. rewrite Hnd. simpl. by rewrite Hnone. }
  assert (d ∈ to_install cs w) as Hin.
  { apply list_elem_of_filter. split; [done|]. by eapply list_elem_of_lookup_2. }
  split.
  - eexists _, _, _. split; [by apply select_devices_out|].
    split; [exact Hin|]. split; [reflexivity|].
    intros Hc. unfold skip_lines in Hc.
    apply list_elem_of_bind in Hc as (j & Hj & _).
    unfold skip_line in Hj.
    destruct (devices cs !! j) as [dj|] eqn:Hdj; [|by apply elem_of_nil in Hj].
    destruct (decide (root_queue_disc w dj = None)); [by apply elem_of_nil in Hj|].
    apply list_elem_of_singleton in Hj. injection Hj as Hj.
    apply Nat2Z.inj in Hj. subst j. congruence.
  - unfold install_queue_discs. rewrite select_devices_out by done. simpl.
    assert (Z.of_nat (length (to_install cs w)) < 2 ^ 32) as Hl.
    { pose proof (length_filter (λ d, root_queue_disc w d = None) (devices cs)).
      unfold to_install. lia. }
    rewrite GetN_small by done.
    rewrite bool_decide_true.
    2: { destruct (to_install cs w); [by apply elem_of_nil in Hin | simpl; lia]. }
    by rewrite (tch_Install_missing_tc _ _ _ d nd Hin).
Qed.

(** The sample world after the RSU node has lost its layer. *)
Definition world_without_rsu_layer : World :=
  set_tc (delete 2%nat (w_tc sample_world)) sample_world.

Lemma device_without_layer_is_selected_witness :
  devices sample_cs !! 2%nat = Some 2%nat
  ∧ w_tc world_without_rsu_layer !! 2%nat = None
  ∧ (∃ devicesToInstall w' out,
       select_devices sample_cs world_without_rsu_layer = Some (devicesToInstall, w')
       ∧ 2%nat ∈ devicesToInstall
       ∧ w_cout w' = w_cout world_without_rsu_layer ++ out
       ∧ OutSkipQueueDisc 2 ∉ out)
  ∧ install_queue_discs sample_cs world_without_rsu_layer = None.
Proof.
  split; [reflexivity|]. split; [reflexivity|].
  apply (device_without_layer_is_selected sample_cs world_without_rsu_layer
           2 2 {| GetNode := 2%nat; GetAddress := 3 |}).
  - simpl. lia.
  - intros d' Hd'. simpl in Hd'.
    repeat (apply elem_of_cons in Hd' as [->|Hd']; [by eexists|]).
    by apply elem_of_nil in Hd'.
  - reflexivity.
  - reflexivity.
  - reflexivity.
Defined.
